(** * Live tracking hook of the GPS tracker: position ingestion, geofence
    and signal-loss alerts, bounded history, playback, and the progress
    map of the device motion simulator.

    Sources: [useTracking] (the browser-geolocation hook, unnamed part_000)
    and [useSupabaseTracking] (the realtime/simulation hook, part_001).

    JS numbers are modelled as [Q] (values produced by [Math.round] as [Z]);
    [Date.now()] and [Math.sin(Date.now() / 10000)] are environment inputs.
    The haversine [getDistance] uses sin/cos/atan2/sqrt; it is kept abstract
    (a section variable), since the code only compares its results. *)

From stdpp Require Import base list gmap strings pretty.
From Stdlib Require Import ZArith QArith Qround Qminmax Qabs Lia Lqa.

Local Open Scope Z_scope.

(** ** Data model (types/tracking.ts) *)

Record GPSPosition := mkGPSPosition {
  pos_id : string;
  latitude : Q;
  longitude : Q;
  timestamp : Z;
  speed : Q;
  heading : Q;
  altitude : Q;
  accuracy : Q;
  battery : Z;
  depth : Z;
  zone : string;
  signalStrength : Z;
}.

Inductive ZoneType := Safe | Restricted | Hazard | EmergencyPoint.

Record Geofence := mkGeofence {
  gf_id : string;
  gf_name : string;
  center_lat : Q;
  center_lng : Q;
  radius : Q;
  isActive : bool;
  alertOnEnter : bool;
  alertOnExit : bool;
  zoneType : option ZoneType;
}.

Inductive AlertType :=
  | geofence_enter | geofence_exit | low_battery | connection_lost
  | speeding | breakdown | emergency | signal_lost.

Inductive Priority := low | medium | high | critical.

(** An alert. [alert_stamp] is the [Date.now()] value from which the code
    builds both the [id] string and the [timestamp]; the display [message]
    is not modelled. *)
Record Alert := mkAlert {
  alert_stamp : Z;
  alert_type : AlertType;
  isRead : bool;
  deviceId : string;
  geofenceId : option string;
  priority : option Priority;
  location : option (Q * Q * Z);
}.

Inductive MineZoneType := tunnel | shaft | station | extraction | emergency_exit.

(** A mine zone; [zone_center] is [coordinates[0]], which every zone the
    hook creates has ([createMineZones] is the only producer). *)
Record MineZone := mkMineZone {
  mz_id : string;
  mz_name : string;
  level : Z;
  zone_center : Q * Q;
  zone_more : list (Q * Q);
  mz_type : MineZoneType;
}.

Inductive DeviceStatus := operational | st_breakdown | maintenance | st_emergency.

Record Device := mkDevice {
  dev_id : string;
  dev_name : string;
  lastPosition : option GPSPosition;
  isOnline : bool;
  lastSeen : Z;
  status : option DeviceStatus;
}.

(** [TrackingState] of [useTracking]. The hook starts with the non-null
    [miningVehicle] and never sets [device] to null, so it is a [Device]. *)
Record TrackingState := mkTrackingState {
  currentPosition : option GPSPosition;
  trackHistory : list GPSPosition;
  device : Device;
  geofences : list Geofence;
  alerts : list Alert;
  isPlaying : bool;
  playbackIndex : Z;
  playbackSpeed : Q;
  mineZones : list MineZone;
  isUnderground : bool;
}.

(** The hook: React state plus the [initialPositionSet] ref. *)
Record Hook := mkHook {
  st : TrackingState;
  initialPositionSet : bool;
}.

(** A browser [GeolocationPosition]; nullable coordinates as [option]. *)
Record GeoFix := mkGeoFix {
  fix_latitude : Q;
  fix_longitude : Q;
  fix_accuracy : Q;
  fix_heading : option Q;
  fix_speed : option Q;
  fix_altitude : option Q;
  fix_timestamp : Z;
}.

(** The clock: [Date.now()] and [Math.sin(Date.now() / 10000)]. *)
Record Env := mkEnv {
  now : Z;
  wave : Q;
}.

(** ** JS helpers *)

(** [Math.round]: floor of [x + 0.5]. *)
Definition js_round (x : Q) : Z := Qfloor (x + (1#2))%Q.

(** Strict comparison of numbers. *)
Definition Qlt_bool (x y : Q) : bool := negb (Qle_bool y x).

(** [arr[i]] for an integer [i]: [undefined] outside [0, length). *)
Definition js_index {A} (l : list A) (i : Z) : option A :=
  if i <? 0 then None else l !! Z.to_nat i.

(** [arr.slice(-k)] for [k > 0]: the last [k] elements (all if fewer). *)
Definition slice_neg {A} (k : nat) (l : list A) : list A :=
  drop (length l - k) l.

(** [x || 0] and [x ? x * c : 0] on nullable numbers. *)
Definition or_zero (x : option Q) : Q :=
  match x with Some v => v | None => 0%Q end.

Definition scaled_or_zero (x : option Q) (c : Q) : Q :=
  match x with Some v => if Qeq_bool v 0 then 0%Q else (v * c)%Q | None => 0%Q end.

(** JS truthiness of a nullable number ([0] is falsy). *)
Definition truthy_num (x : option Z) : bool :=
  match x with Some v => negb (v =? 0) | None => false end.

(** ** History store: [[...history.slice(-199), p]] (part_000 l.193,
    part_001 l.191 and l.198) *)

Definition historyAppend (history : list GPSPosition) (p : GPSPosition)
  : list GPSPosition :=
  slice_neg 199 history ++ [p].

(** [miningVehicle]; its [lastSeen: new Date()] is the load time, taken as 0,
    and its [type] field is not modelled. *)
Definition miningVehicle : Device :=
  mkDevice "vehicle-001" "Mining Truck #1" None true 0 (Some operational).

Definition initialState : TrackingState :=
  mkTrackingState None [] miningVehicle [] [] false (-1) 1 [] false.

Definition initialHook : Hook := mkHook initialState false.

(** ** The live ingestion path of [useTracking] (part_000) *)

Section Ingestion.

(** [getDistance(lat1, lon1, lat2, lon2)]: haversine distance in meters. *)
Variable getDistance : Q -> Q -> Q -> Q -> Q.

Local Open Scope Q_scope.

Definition createMineZones (lat lng : Q) : list MineZone := [
  mkMineZone "zone-main-tunnel" "Main Tunnel" (-1)
    (lat - (1#1000), lng - (2#1000)) [(lat + (1#1000), lng + (2#1000))] tunnel;
  mkMineZone "zone-extraction" "Extraction Zone A" (-2)
    (lat - (5#10000), lng - (1#1000)) [(lat + (5#10000), lng + (1#1000))] extraction;
  mkMineZone "zone-shaft" "Main Shaft" 0 (lat, lng) [] shaft;
  mkMineZone "zone-emergency" "Emergency Exit" (-1)
    (lat + (2#1000), lng + (1#1000)) [] emergency_exit ].

Definition createMineGeofences (lat lng : Q) : list Geofence := [
  mkGeofence "geofence-safe-zone" "Safe Zone - Surface" lat lng 200
    true false true (Some Safe);
  mkGeofence "geofence-hazard" "Hazard Zone - Blasting Area"
    (lat - (1#1000)) (lng - (1#1000)) 100 true true false (Some Hazard);
  mkGeofence "geofence-emergency" "Emergency Rally Point"
    (lat + (2#1000)) (lng + (1#1000)) 50 true false false (Some EmergencyPoint) ].

(** [calculateDepth(accuracy, history)]; [variation] is
    [Math.sin(Date.now() / 10000) * 20]. *)
Definition calculateDepth (e : Env) (acc : Q) : Z :=
  if Qlt_bool 50 acc then
    let baseDepth := Qmin (acc / 2) 200 in
    let variation := wave e * 20 in
    js_round (baseDepth + variation)
  else 0%Z.

Definition calculateSignalStrength (acc dep : Q) : Z :=
  let baseSignal := Qmax 0 (100 - acc) in
  let depthPenalty := dep * (3#10) in
  Z.max 5 (js_round (baseSignal - depthPenalty)).

Fixpoint determineZone (lat lng : Q) (zones : list MineZone) : string :=
  match zones with
  | [] => "Surface"
  | z :: rest =>
      let '(clat, clng) := zone_center z in
      if Qlt_bool (getDistance lat lng clat clng) 100 then mz_name z
      else determineZone lat lng rest
  end.

(** The body of [geofences.forEach(fence => ...)]: [acc] is [newAlerts],
    to which [unshift] prepends. *)
Definition fenceStep (e : Env) (dev : Device) (lastPos : option GPSPosition)
    (newPosition : GPSPosition) (acc : list Alert) (fence : Geofence)
    : list Alert :=
  match lastPos with
  | None => acc
  | Some lp =>
      if negb (isActive fence) then acc else
      let currentDistance := getDistance (center_lat fence) (center_lng fence)
        (latitude newPosition) (longitude newPosition) in
      let wasInside := Qle_bool (getDistance (center_lat fence) (center_lng fence)
        (latitude lp) (longitude lp)) (radius fence) in
      let isInside := Qle_bool currentDistance (radius fence) in
      let loc := Some (latitude newPosition, longitude newPosition, depth newPosition) in
      let acc1 :=
        if wasInside && negb isInside && alertOnExit fence then
          mkAlert (now e) geofence_exit false (dev_id dev) (Some (gf_id fence))
            (Some (match zoneType fence with Some Safe => high | _ => medium end))
            loc :: acc
        else acc in
      if negb wasInside && isInside && alertOnEnter fence then
        mkAlert (now e) geofence_enter false (dev_id dev) (Some (gf_id fence))
          (Some (match zoneType fence with Some Hazard => critical | _ => low end))
          loc :: acc1
      else acc1
  end.

Definition geofenceAlerts (e : Env) (dev : Device) (lastPos : option GPSPosition)
    (newPosition : GPSPosition) (fences : list Geofence) (acc : list Alert)
    : list Alert :=
  fold_left (fenceStep e dev lastPos newPosition) fences acc.

(** [signalStrength < 20 && prev.currentPosition?.signalStrength &&
     prev.currentPosition.signalStrength >= 20]. *)
Definition signalLost (sig : Z) (lastPos : option GPSPosition) : bool :=
  (sig <? 20)%Z
  && truthy_num (option_map signalStrength lastPos)
  && match lastPos with
     | Some lp => (20 <=? signalStrength lp)%Z
     | None => false
     end.

Definition signalAlert (e : Env) (dev : Device) (newPosition : GPSPosition) : Alert :=
  mkAlert (now e) signal_lost false (dev_id dev) None (Some high)
    (Some (latitude newPosition, longitude newPosition, depth newPosition)).

(** The zones and geofences in use for this fix: created around the very
    first fix, kept afterwards. *)
Definition zonesFor (h : Hook) (f : GeoFix) : list MineZone * list Geofence :=
  if initialPositionSet h then (mineZones (st h), geofences (st h))
  else (createMineZones (fix_latitude f) (fix_longitude f),
        createMineGeofences (fix_latitude f) (fix_longitude f)).

Definition newPositionOf (e : Env) (h : Hook) (f : GeoFix) : GPSPosition :=
  let dep := calculateDepth e (fix_accuracy f) in
  let sig := calculateSignalStrength (fix_accuracy f) (inject_Z dep) in
  let zn := determineZone (fix_latitude f) (fix_longitude f) (fst (zonesFor h f)) in
  mkGPSPosition (String.append "pos-" (pretty (now e)))
    (fix_latitude f) (fix_longitude f) (fix_timestamp f)
    (scaled_or_zero (fix_speed f) (36#10)) (or_zero (fix_heading f))
    (or_zero (fix_altitude f)) (fix_accuracy f) 85 dep zn sig.

(** The alerts a fix adds in front of [prev.alerts] (newest first). *)
Definition emittedAlerts (e : Env) (h : Hook) (f : GeoFix) : list Alert :=
  let p := newPositionOf e h f in
  let lastPos := currentPosition (st h) in
  let fenceAlerts := geofenceAlerts e (device (st h)) lastPos p (snd (zonesFor h f)) [] in
  if signalLost (signalStrength p) lastPos
  then signalAlert e (device (st h)) p :: fenceAlerts
  else fenceAlerts.

(** [handlePosition]: the [setState] updater and the [initialPositionSet]
    ref it sets. *)
Definition handlePosition (e : Env) (f : GeoFix) (h : Hook) : Hook :=
  let prev := st h in
  if isPlaying prev then h else
  let p := newPositionOf e h f in
  let '(zones, fences) := zonesFor h f in
  let newHistory := historyAppend (trackHistory prev) p in
  let lastPos := currentPosition prev in
  let newAlerts := geofenceAlerts e (device prev) lastPos p fences (alerts prev) in
  let newAlerts :=
    if signalLost (signalStrength p) lastPos
    then signalAlert e (device prev) p :: newAlerts else newAlerts in
  let dev := device prev in
  mkHook
    (mkTrackingState (Some p) newHistory
       (mkDevice (dev_id dev) (dev_name dev) (Some p) true (now e) (status dev))
       fences (take 50 newAlerts) false (playbackIndex prev)
       (playbackSpeed prev) zones (10 <? depth p)%Z)
    true.

(** Feeding a sequence of fixes, each with its clock reading. *)
Fixpoint runFixes (fs : list (Env * GeoFix)) (h : Hook) : Hook :=
  match fs with
  | [] => h
  | (e, f) :: rest => runFixes rest (handlePosition e f h)
  end.

End Ingestion.

(** ** Playback controls of [useTracking] (part_000 l.370-433) *)

Definition withPlayback (s : TrackingState) (cur : option GPSPosition)
    (playing : bool) (idx : Z) (speed : Q) : TrackingState :=
  mkTrackingState cur (trackHistory s) (device s) (geofences s) (alerts s)
    playing idx speed (mineZones s) (isUnderground s).

(** [startPlayback]: [{ ...prev, isPlaying: true, playbackIndex: 0 }]. *)
Definition startPlayback (s : TrackingState) : TrackingState :=
  withPlayback s (currentPosition s) true 0 (playbackSpeed s).

(** [stopPlayback]: live again, showing the last history entry or null. *)
Definition stopPlayback (s : TrackingState) : TrackingState :=
  withPlayback s (js_index (trackHistory s) (Z.of_nat (length (trackHistory s)) - 1))
    false (-1) (playbackSpeed s).

(** [setPlaybackIndex(index)]: [currentPosition: pos || prev.currentPosition]. *)
Definition setPlaybackIndex (index : Z) (s : TrackingState) : TrackingState :=
  let cur := match js_index (trackHistory s) index with
             | Some pos => Some pos
             | None => currentPosition s
             end in
  withPlayback s cur (isPlaying s) index (playbackSpeed s).

Definition setPlaybackSpeed (speed : Q) (s : TrackingState) : TrackingState :=
  withPlayback s (currentPosition s) (isPlaying s) (playbackIndex s) speed.

(** The [setInterval] callback of the playback effect. *)
Definition playbackTick (s : TrackingState) : TrackingState :=
  let nextIndex := playbackIndex s + 1 in
  let len := Z.of_nat (length (trackHistory s)) in
  if len <=? nextIndex then
    withPlayback s (currentPosition s) false (len - 1) (playbackSpeed s)
  else
    withPlayback s (js_index (trackHistory s) nextIndex) (isPlaying s)
      nextIndex (playbackSpeed s).

(** The events that reach the hook's state. [Tick] is taken as enabled in
    every state: the interval only exists while playing, so this admits
    more runs than the code has. *)
Inductive Op :=
  | Start
  | Stop
  | Seek (index : Z)
  | Tick
  | Speed (speed : Q)
  | Fix (e : Env) (f : GeoFix).

Definition onState (g : TrackingState -> TrackingState) (h : Hook) : Hook :=
  mkHook (g (st h)) (initialPositionSet h).

Definition applyOp (getDistance : Q -> Q -> Q -> Q -> Q) (o : Op) (h : Hook) : Hook :=
  match o with
  | Start => onState startPlayback h
  | Stop => onState stopPlayback h
  | Seek i => onState (setPlaybackIndex i) h
  | Tick => onState playbackTick h
  | Speed q => onState (setPlaybackSpeed q) h
  | Fix e f => handlePosition getDistance e f h
  end.

Fixpoint runOps (getDistance : Q -> Q -> Q -> Q -> Q) (os : list Op) (h : Hook) : Hook :=
  match os with
  | [] => h
  | o :: rest => runOps getDistance rest (applyOp getDistance o h)
  end.

(** ** Simulation progress of [useSupabaseTracking] (part_001) *)

(** A [tracking_devices] row (the fields the simulator reads). *)
Record TrackingDevice := mkTrackingDevice {
  td_id : string;
  td_name : string;
  td_type : string;
}.

Global Instance TrackingDevice_eq_dec : EqDecision TrackingDevice.
Proof. solve_decision. Defined.

(** [{ pathIndex, progress }], the value type of [simulationStateRef]. *)
Record SimProgress := mkSimProgress {
  pathIndex : Z;
  progress : Q;
}.

(** [String.prototype.toLowerCase] on ASCII letters. *)
Definition lower_ascii (c : Ascii.ascii) : Ascii.ascii :=
  let n := Ascii.nat_of_ascii c in
  if (65 <=? n)%nat && (n <=? 90)%nat then Ascii.ascii_of_nat (n + 32) else c.

Fixpoint toLowerCase (s : string) : string :=
  match s with
  | EmptyString => EmptyString
  | String c rest => String (lower_ascii c) (toLowerCase rest)
  end.

(** [s.includes(sub)]. *)
Fixpoint includes (s sub : string) : bool :=
  String.prefix sub s ||
  match s with
  | EmptyString => false
  | String _ rest => includes rest sub
  end.

Definition isDrill (d : TrackingDevice) : bool :=
  String.eqb (td_type d) "drill"
  || includes (toLowerCase (td_name d)) "drill"
  || includes (toLowerCase (td_name d)) "simba".

(** The choice of [devicesToSimulate]; [drillDevices.includes(d)] compares
    rows, which are distinct objects with distinct ids. *)
Definition devicesToSimulate (devices : list TrackingDevice) : list TrackingDevice :=
  let drillDevices := take 3 (filter (fun d => isDrill d = true) devices) in
  if (2 <=? length drillDevices)%nat then drillDevices
  else if (length drillDevices =? 1)%nat && (2 <=? length devices)%nat then
    let otherDevices := take 2 (filter (fun d => d ∉ drillDevices) devices) in
    take 3 (drillDevices ++ otherDevices)
  else take (Nat.min 3 (length devices)) devices.

(** [devicePaths.forEach(({ deviceId }) => { if (!has) set(0, 0) })]. *)
Definition initProgress (sel : list TrackingDevice) (m : gmap string SimProgress)
  : gmap string SimProgress :=
  foldl (fun m d =>
           match m !! td_id d with
           | Some _ => m
           | None => <[td_id d := mkSimProgress 0 0]> m
           end) m sel.

(** The simulator's state: the [simulationStateRef] map and [isSimulating]. *)
Record Simulator := mkSimulator {
  simulationState : gmap string SimProgress;
  isSimulating : bool;
}.

(** [startSimulation] up to the progress initialisation. The first
    [simulatePosition()] call and the interval it then schedules advance
    these trackers afterwards; they are not part of this model. *)
Definition startSimulation (devices : list TrackingDevice) (s : Simulator) : Simulator :=
  match devices with
  | [] => s
  | _ =>
      let sel := devicesToSimulate devices in
      match sel with
      | [] => mkSimulator (simulationState s) true
      | _ => mkSimulator (initProgress sel (simulationState s)) true
      end
  end.

(** [stopSimulation]: clear the interval, [isSimulating = false],
    [simulationStateRef.current.clear()]. *)
Definition stopSimulation (s : Simulator) : Simulator :=
  mkSimulator ∅ false.

(** ** Concrete inputs *)

Definition samplePos : GPSPosition :=
  mkGPSPosition "pos-1" 0 0 0 0 0 0 5 85 0 "Surface" 95.

Definition sampleEnv : Env := mkEnv 0 0.

Definition sampleFix : GeoFix := mkGeoFix 0 0 5 None None None 0.

(** A stand-in distance for concrete runs: scaled Manhattan distance. *)
Definition gridDistance (lat1 lng1 lat2 lng2 : Q) : Q :=
  (Qabs (lat2 - lat1) * 100000 + Qabs (lng2 - lng1) * 100000)%Q.

Definition zeroDistance (lat1 lng1 lat2 lng2 : Q) : Q := 0%Q.

(** A hook whose state is replaying the history [hist] at [idx]. *)
Definition playbackHook (hist : list GPSPosition) (playing : bool) (idx : Z) : Hook :=
  mkHook (mkTrackingState (head hist) hist miningVehicle [] [] playing idx 1 [] false)
    true.

(** The playback invariant of the spec, and the weaker one the code keeps. *)
Definition playbackInv (h : Hook) : Prop :=
  isPlaying (st h) = true ->
  0 <= playbackIndex (st h) < Z.of_nat (length (trackHistory (st h))).

Definition playbackInvCode (h : Hook) : Prop :=
  isPlaying (st h) = true ->
  0 <= playbackIndex (st h)
  /\ (playbackIndex (st h) < Z.of_nat (length (trackHistory (st h)))
      \/ (trackHistory (st h) = [] /\ playbackIndex (st h) = 0)).

Definition isSeek (o : Op) : bool :=
  match o with Seek _ => true | _ => false end.

(** ** Helper lemmas *)

Lemma js_index_in_range {A} (l : list A) (i : Z) :
  0 <= i < Z.of_nat (length l) -> exists x, js_index l i = Some x.
Proof.
  intros Hi. unfold js_index.
  destruct (Z.ltb_spec i 0); [lia|].
  apply lookup_lt_is_Some_2. lia.
Qed.

Lemma js_index_last {A} (l : list A) :
  js_index l (Z.of_nat (length l) - 1) = last l.
Proof.
  unfold js_index. destruct l as [|x l] using rev_ind; [reflexivity|].
  rewrite last_snoc, length_app. simpl.
  destruct (Z.ltb_spec (Z.of_nat (length l + 1) - 1) 0); [lia|].
  replace (Z.to_nat (Z.of_nat (length l + 1) - 1)) with (length l) by lia.
  apply list_lookup_middle. reflexivity.
Qed.

Lemma handlePosition_playing (gd : Q -> Q -> Q -> Q -> Q) e f h :
  isPlaying (st h) = true -> handlePosition gd e f h = h.
Proof. intros Hp. unfold handlePosition; cbv zeta. rewrite Hp. reflexivity. Qed.

Lemma handlePosition_isPlaying (gd : Q -> Q -> Q -> Q -> Q) e f h :
  isPlaying (st (handlePosition gd e f h)) = isPlaying (st h).
Proof.
  unfold handlePosition; cbv zeta. destruct (isPlaying (st h)) eqn:Hp; [exact Hp|].
  destruct (zonesFor h f). reflexivity.
Qed.

Lemma handlePosition_playbackIndex (gd : Q -> Q -> Q -> Q -> Q) e f h :
  playbackIndex (st (handlePosition gd e f h)) = playbackIndex (st h).
Proof.
  unfold handlePosition; cbv zeta. destruct (isPlaying (st h)); [reflexivity|].
  destruct (zonesFor h f). reflexivity.
Qed.

(** ** C1: live fixes during playback *)

(** C1 (as stated): a live fix while playing still appends to the history.
    It does not: the updater returns [prev] unchanged. *)
Lemma C1_counterexample :
  let h := playbackHook [] true 0 in
  trackHistory (st (handlePosition zeroDistance sampleEnv sampleFix h))
  <> trackHistory (st h) ++ [newPositionOf zeroDistance sampleEnv h sampleFix].
Proof. simpl. discriminate. Qed.

(** C1 (amended): while [isPlaying] is true, a live position event leaves
    the whole hook state unchanged: nothing is appended to the history and
    the current position, alerts and zones stay as they were. *)
Theorem handlePosition_ignored_while_playing
  (getDistance : Q -> Q -> Q -> Q -> Q) (e : Env) (f : GeoFix) (h : Hook) :
  isPlaying (st h) = true -> handlePosition getDistance e f h = h.
Proof. apply handlePosition_playing. Qed.

Lemma handlePosition_ignored_while_playing_witness :
  isPlaying (st (playbackHook [samplePos] true 0)) = true
  /\ handlePosition zeroDistance sampleEnv sampleFix (playbackHook [samplePos] true 0)
     = playbackHook [samplePos] true 0.
Proof.
  split; [reflexivity|].
  apply handlePosition_ignored_while_playing. reflexivity.
Defined.

(** ** C2: stop *)

(** C2 (as stated): stop keeps the cursor (Paused) unless the history is
    empty. With a one-entry history at cursor 0, stop sets the cursor to -1. *)
Lemma C2_counterexample :
  let s := st (playbackHook [samplePos] true 0) in
  trackHistory s <> [] /\ playbackIndex (stopPlayback s) <> playbackIndex s.
Proof. simpl. split; discriminate. Qed.

(** C2 (amended): from every state, stop returns to Live: playing becomes
    false, the cursor becomes -1, and the current position becomes the last
    history entry (null when the history is empty); the history is kept. *)
Theorem stopPlayback_goes_live (s : TrackingState) :
  isPlaying (stopPlayback s) = false
  /\ playbackIndex (stopPlayback s) = -1
  /\ currentPosition (stopPlayback s) = last (trackHistory s)
  /\ trackHistory (stopPlayback s) = trackHistory s.
Proof.
  unfold stopPlayback, withPlayback; simpl.
  rewrite js_index_last. auto.
Qed.

(** ** C3: start *)

(** C3 (as stated): start from Paused keeps the cursor. Paused at 1, start
    sets it to 0. *)
Lemma C3_counterexample :
  let s := st (playbackHook [samplePos; samplePos] false 1) in
  playbackIndex (startPlayback s) <> playbackIndex s.
Proof. simpl. discriminate. Qed.

(** C3 (amended): from every state, start sets playing to true and the
    cursor to 0, whatever the previous cursor; the history and the current
    position are kept. *)
Theorem startPlayback_rewinds (s : TrackingState) :
  isPlaying (startPlayback s) = true
  /\ playbackIndex (startPlayback s) = 0
  /\ trackHistory (startPlayback s) = trackHistory s
  /\ currentPosition (startPlayback s) = currentPosition s.
Proof. repeat split. Qed.

(** ** C4: seek *)

(** C4 (as stated): seek clamps into [0, L-1]. On a one-entry history,
    seek(5) leaves the cursor at 5. *)
Lemma C4_counterexample :
  let s := setPlaybackIndex 5 (st (playbackHook [samplePos] false (-1))) in
  ~ (0 <= playbackIndex s < Z.of_nat (length (trackHistory s))).
Proof. simpl. lia. Qed.

(** C4 (amended): seek(index) stores [index] as the cursor unclamped and
    keeps the playing flag; the current position becomes [history[index]]
    when [0 <= index < L], and is unchanged otherwise. *)
Theorem setPlaybackIndex_unclamped (index : Z) (s : TrackingState) :
  playbackIndex (setPlaybackIndex index s) = index
  /\ isPlaying (setPlaybackIndex index s) = isPlaying s
  /\ trackHistory (setPlaybackIndex index s) = trackHistory s
  /\ currentPosition (setPlaybackIndex index s)
     = (if (0 <=? index) && (index <? Z.of_nat (length (trackHistory s)))
        then js_index (trackHistory s) index else currentPosition s).
Proof.
  unfold setPlaybackIndex, withPlayback; simpl.
  repeat split.
  destruct (Z.leb_spec 0 index); destruct (Z.ltb_spec index (Z.of_nat (length (trackHistory s)))); simpl.
  - destruct (js_index_in_range (trackHistory s) index) as [x Hx]; [lia|].
    rewrite Hx. reflexivity.
  - unfold js_index. destruct (Z.ltb_spec index 0); [lia|].
    rewrite lookup_ge_None_2 by lia. reflexivity.
  - unfold js_index. destruct (Z.ltb_spec index 0); [reflexivity|lia].
  - unfold js_index. destruct (Z.ltb_spec index 0); [reflexivity|lia].
Qed.

(** ** C5: the playback invariant *)

Lemma applyOp_keeps_inv (gd : Q -> Q -> Q -> Q -> Q) (o : Op) (h : Hook) :
  isSeek o = false -> playbackInvCode h -> playbackInvCode (applyOp gd o h).
Proof.
  (* seek is excluded; stop makes playing false *)
  intros Hs Hinv. destruct o as [| |i| |q|e f]; simpl in Hs; try discriminate.
  - (* start *)
    unfold playbackInvCode, startPlayback, withPlayback; simpl. intros _. split; [lia|].
    destruct (trackHistory (st h)) as [|x l]; [right; auto|left; simpl; lia].
  - (* tick *)
    unfold playbackInvCode in *; simpl. unfold playbackTick, withPlayback.
    destruct (Z.leb_spec (Z.of_nat (length (trackHistory (st h))))
                (playbackIndex (st h) + 1)); simpl; [intros Hf; discriminate Hf|].
    intros Hp. destruct (Hinv Hp) as [H0 _]. split; [lia|left; lia].
  - (* speed *)
    exact Hinv.
  - (* live fix *)
    unfold playbackInvCode. simpl. rewrite handlePosition_isPlaying.
    intros Hp. rewrite handlePosition_playing by exact Hp. exact (Hinv Hp).
Qed.

(** A seek keeps the invariant unless it is made while playing with an
    index outside the history. *)
Definition seekOk (h : Hook) (o : Op) : bool :=
  match o with
  | Seek i => negb (isPlaying (st h))
              || ((0 <=? i) && (i <? Z.of_nat (length (trackHistory (st h)))))
  | _ => true
  end.

(** Every seek of a run, in the state it is applied to, passes [seekOk]. *)
Fixpoint seeksInRange (gd : Q -> Q -> Q -> Q -> Q) (os : list Op) (h : Hook) : bool :=
  match os with
  | [] => true
  | o :: rest => seekOk h o && seeksInRange gd rest (applyOp gd o h)
  end.

Lemma applyOp_keeps_inv_seek (gd : Q -> Q -> Q -> Q -> Q) (o : Op) (h : Hook) :
  seekOk h o = true -> playbackInvCode h -> playbackInvCode (applyOp gd o h).
Proof.
  intros Hs Hinv. destruct o as [| |i| | |]; try (apply applyOp_keeps_inv; [reflexivity|exact Hinv]).
  simpl in Hs. unfold playbackInvCode. simpl.
  unfold setPlaybackIndex, withPlayback; simpl. intros Hp. rewrite Hp in Hs. simpl in Hs.
  apply andb_prop in Hs as [H1 H2]. apply Z.leb_le in H1. apply Z.ltb_lt in H2.
  split; [exact H1|left; exact H2].
Qed.

Lemma runOps_keeps_inv (gd : Q -> Q -> Q -> Q -> Q) (os : list Op) (h : Hook) :
  seeksInRange gd os h = true ->
  playbackInvCode h -> playbackInvCode (runOps gd os h).
Proof.
  revert h. induction os as [|o os IH]; intros h Hall Hinv; simpl in *; [exact Hinv|].
  apply andb_prop in Hall as [Ho Hos].
  apply IH; [exact Hos|]. apply applyOp_keeps_inv_seek; [exact Ho|exact Hinv].
Qed.

(** C5 (as stated): playing implies [0 <= cursor < length] in every
    reachable state. Start on the initial (empty) history gives cursor 0
    with length 0; seek(-3) while playing gives cursor -3. *)
Lemma C5_counterexample :
  ~ playbackInv (runOps zeroDistance [Start] initialHook)
  /\ ~ playbackInv (runOps zeroDistance [Fix sampleEnv sampleFix; Start; Seek (-3)]
                     initialHook).
Proof.
  split; intros H; specialize (H eq_refl); simpl in H; lia.
Qed.

(** C5 (amended): in every state reachable from the initial state by
    start(), stop(), playback ticks, setSpeed, live position ingestion and
    seek(index), where every seek made while playing has
    [0 <= index < history length] (seeks made while paused are
    unrestricted), if playing is true then the cursor is >= 0 and either
    below the history length or, right after start() on an empty history,
    equal to 0 with the history empty. *)
Theorem playback_invariant_inrange_seeks
  (getDistance : Q -> Q -> Q -> Q -> Q) (os : list Op) :
  seeksInRange getDistance os initialHook = true ->
  playbackInvCode (runOps getDistance os initialHook).
Proof.
  intros Hall. apply runOps_keeps_inv; [exact Hall|].
  unfold playbackInvCode, stopPlayback, withPlayback; simpl. intros Hf; discriminate Hf.
Qed.

Lemma playback_invariant_inrange_seeks_witness :
  seeksInRange zeroDistance
    [Seek 7; Fix sampleEnv sampleFix; Fix sampleEnv sampleFix; Start; Seek 1; Tick; Seek 0]
    initialHook = true
  /\ playbackInvCode (runOps zeroDistance
       [Seek 7; Fix sampleEnv sampleFix; Fix sampleEnv sampleFix; Start; Seek 1; Tick; Seek 0]
       initialHook).
Proof.
  assert (H : seeksInRange zeroDistance
    [Seek 7; Fix sampleEnv sampleFix; Fix sampleEnv sampleFix; Start; Seek 1; Tick; Seek 0]
    initialHook = true) by (vm_compute; reflexivity).
  split; [exact H|].
  exact (playback_invariant_inrange_seeks zeroDistance _ H).
Defined.

(** ** C8: the bounded history *)

Lemma historyAppend_foldl (h xs : list GPSPosition) :
  (length h <= 200)%nat ->
  foldl historyAppend h xs = drop (length h + length xs - 200) (h ++ xs).
Proof.
  revert h. induction xs as [|x xs IH]; intros h Hh; simpl.
  - rewrite app_nil_r. replace (length h + 0 - 200)%nat with 0%nat by lia.
    reflexivity.
  - assert (Hlen : length (historyAppend h x) = ((length h - (length h - 199)) + 1)%nat).
    { unfold historyAppend, slice_neg. rewrite length_app, length_drop. simpl. lia. }
    rewrite IH by lia. rewrite Hlen.
    unfold historyAppend, slice_neg.
    rewrite <- app_assoc. simpl.
    rewrite <- (drop_app_le h (x :: xs)) by lia.
    rewrite drop_drop. f_equal. lia.
Qed.

(** C8: appending positions one by one to a history of at most 200 entries
    (as both ingestion paths do, [[...history.slice(-199), p]]) never makes
    it longer than 200; after N > 200 appends it holds exactly the last 200
    appended positions, oldest first. *)
Theorem history_bounded_200 (h xs : list GPSPosition) :
  (length h <= 200)%nat ->
  (forall k, (length (foldl historyAppend h (take k xs)) <= 200)%nat)
  /\ ((200 < length xs)%nat ->
      foldl historyAppend h xs = drop (length xs - 200) xs
      /\ length (foldl historyAppend h xs) = 200%nat).
Proof.
  intros Hh. split.
  - intros k. rewrite historyAppend_foldl by exact Hh.
    rewrite length_drop, length_app. lia.
  - intros HN. rewrite historyAppend_foldl by exact Hh.
    rewrite drop_app_ge by lia.
    replace (length h + length xs - 200 - length h)%nat with (length xs - 200)%nat by lia.
    split; [reflexivity|]. rewrite length_drop. lia.
Qed.

Definition positionsUpTo (n : nat) : list GPSPosition :=
  map (fun i => mkGPSPosition "pos" 0 0 (Z.of_nat i) 0 0 0 5 85 0 "Surface" 95)
    (seq 0 n).

Lemma history_bounded_200_witness :
  (length ([] : list GPSPosition) <= 200)%nat
  /\ (forall k, (length (foldl historyAppend [] (take k (positionsUpTo 203))) <= 200)%nat)
  /\ ((200 < length (positionsUpTo 203))%nat ->
      foldl historyAppend [] (positionsUpTo 203) = drop (length (positionsUpTo 203) - 200) (positionsUpTo 203)
      /\ length (foldl historyAppend [] (positionsUpTo 203)) = 200%nat).
Proof.
  assert (H0 : (length ([] : list GPSPosition) <= 200)%nat) by (simpl; lia).
  split; [exact H0|].
  exact (history_bounded_200 [] (positionsUpTo 203) H0).
Defined.

(** ** C9: simulation progress across start and stop *)

Lemma initProgress_lookup (sel : list TrackingDevice) (m : gmap string SimProgress)
    (k : string) :
  initProgress sel m !! k =
  match m !! k with
  | Some p => Some p
  | None => if bool_decide (k ∈ map td_id sel) then Some (mkSimProgress 0 0) else None
  end.
Proof.
  revert m. induction sel as [|d sel IH]; intros m; simpl.
  - destruct (m !! k); reflexivity.
  - rewrite IH. destruct (m !! td_id d) as [q|] eqn:Hd.
    + destruct (m !! k) as [p|] eqn:Hk; [reflexivity|].
      destruct (decide (k = td_id d)) as [->|Hne]; [congruence|].
      rewrite (bool_decide_ext (k ∈ td_id d :: map td_id sel) (k ∈ map td_id sel)); [reflexivity|].
      rewrite elem_of_cons. naive_solver.
    + destruct (decide (k = td_id d)) as [->|Hne].
      * rewrite lookup_insert_eq, Hd, bool_decide_true; [reflexivity|].
        apply elem_of_cons. left. reflexivity.
      * rewrite lookup_insert_ne by congruence.
        destruct (m !! k); [reflexivity|].
        rewrite (bool_decide_ext (k ∈ td_id d :: map td_id sel) (k ∈ map td_id sel)); [reflexivity|].
        rewrite elem_of_cons. naive_solver.
Qed.

Lemma startSimulation_state (devices : list TrackingDevice) (s : Simulator) :
  simulationState (startSimulation devices s)
  = initProgress (devicesToSimulate devices) (simulationState s).
Proof.
  unfold startSimulation. destruct devices as [|d0 ds]; [reflexivity|].
  destruct (devicesToSimulate (d0 :: ds)) eqn:Hsel; reflexivity.
Qed.

(** C9: starting the simulator keeps the progress tracker of every device
    that already has one, and only adds trackers for the selected devices
    (the map holds one entry per device id); stopping empties the map, so
    every device selected by the next start gets [{ pathIndex: 0,
    progress: 0 }]. *)
Theorem simulation_start_idempotent_stop_resets
  (devices : list TrackingDevice) (s : Simulator) (id : string)
  (p : SimProgress) (d : TrackingDevice) :
  simulationState s !! id = Some p ->
  d ∈ devicesToSimulate devices ->
  simulationState (startSimulation devices s) !! id = Some p
  /\ (forall k, is_Some (simulationState (startSimulation devices s) !! k)
                <-> is_Some (simulationState s !! k)
                    \/ k ∈ map td_id (devicesToSimulate devices))
  /\ simulationState (stopSimulation s) = ∅
  /\ simulationState (startSimulation devices (stopSimulation s)) !! td_id d
     = Some (mkSimProgress 0 0).
Proof.
  intros Hp Hd. rewrite !startSimulation_state. split; [|split; [|split]].
  - rewrite initProgress_lookup, Hp. reflexivity.
  - intros k. rewrite initProgress_lookup.
    destruct (simulationState s !! k); [split; [left; eauto|eauto]|].
    case_bool_decide as Hin; split; intros H.
    + right. exact Hin.
    + eauto.
    + destruct H as [? H]; discriminate.
    + destruct H as [[? H]|H]; [discriminate|contradiction].
  - reflexivity.
  - rewrite initProgress_lookup. simpl. rewrite lookup_empty.
    rewrite bool_decide_true; [reflexivity|].
    apply list_elem_of_In, in_map, list_elem_of_In. exact Hd.
Qed.

Definition drillA : TrackingDevice := mkTrackingDevice "d1" "Simba Drill A" "drill".
Definition drillB : TrackingDevice := mkTrackingDevice "d2" "Truck" "drill".
Definition truckC : TrackingDevice := mkTrackingDevice "d3" "Truck C" "vehicle".

Definition runningSim : Simulator :=
  mkSimulator (<["d1" := mkSimProgress 3 (1#2)]> ∅) true.

Lemma simulation_start_idempotent_stop_resets_witness :
  simulationState runningSim !! "d1" = Some (mkSimProgress 3 (1#2))
  /\ drillB ∈ devicesToSimulate [drillA; drillB; truckC]
  /\ simulationState (startSimulation [drillA; drillB; truckC] runningSim) !! "d1"
     = Some (mkSimProgress 3 (1#2))
  /\ simulationState (startSimulation [drillA; drillB; truckC]
                        (stopSimulation runningSim)) !! td_id drillB
     = Some (mkSimProgress 0 0).
Proof.
  assert (H1 : simulationState runningSim !! "d1" = Some (mkSimProgress 3 (1#2))).
  { apply lookup_insert_eq. }
  assert (Hsel : devicesToSimulate [drillA; drillB; truckC] = [drillA; drillB]).
  { vm_compute. reflexivity. }
  assert (H2 : drillB ∈ devicesToSimulate [drillA; drillB; truckC]).
  { rewrite Hsel. apply elem_of_cons. right. apply elem_of_cons. left. reflexivity. }
  destruct (simulation_start_idempotent_stop_resets [drillA; drillB; truckC]
              runningSim "d1" (mkSimProgress 3 (1#2)) drillB H1 H2)
    as [H3 [_ [_ H4]]].
  split; [exact H1|]. split; [exact H2|]. split; [exact H3|exact H4].
Defined.

(** ** C10: the signal strength of live positions *)

Lemma js_round_le (x : Q) (n : Z) : (x <= inject_Z n)%Q -> js_round x <= n.
Proof.
  intros Hx. unfold js_round.
  assert (H : (inject_Z (Qfloor (x + (1#2))) < inject_Z (n + 1))%Q).
  { rewrite inject_Z_plus. pose proof (Qfloor_le (x + (1#2))).
    change (inject_Z 1) with 1%Q. lra. }
  rewrite <- Zlt_Qlt in H. lia.
Qed.

Lemma js_round_ge (x : Q) (n : Z) : (inject_Z n <= x)%Q -> n <= js_round x.
Proof.
  intros Hx. unfold js_round.
  assert (H : (inject_Z n < inject_Z (Qfloor (x + (1#2)) + 1))%Q).
  { pose proof (Qlt_floor (x + (1#2))). lra. }
  rewrite <- Zlt_Qlt in H. lia.
Qed.

Lemma calculateSignalStrength_bounds (acc dep : Q) :
  (0 <= acc)%Q -> (0 <= dep)%Q -> 5 <= calculateSignalStrength acc dep <= 100.
Proof.
  intros Hacc Hdep. unfold calculateSignalStrength.
  assert (Hb : (Qmax 0 (100 - acc) <= 100)%Q).
  { apply Q.max_lub; lra. }
  assert (Hr : js_round (Qmax 0 (100 - acc) - dep * (3#10)) <= 100).
  { apply js_round_le. unfold inject_Z. lra. }
  lia.
Qed.

Lemma calculateDepth_nonneg (e : Env) (acc : Q) :
  (-1 <= wave e <= 1)%Q -> 0 <= calculateDepth e acc.
Proof.
  intros Hw. unfold calculateDepth, Qlt_bool.
  destruct (Qle_bool acc 50) eqn:Hle; simpl; [lia|].
  assert (H50 : (50 < acc)%Q).
  { apply Qnot_le_lt. intros H. apply Qle_bool_iff in H. congruence. }
  apply js_round_ge. unfold inject_Z.
  assert (Hm : (20 <= Qmin (acc / 2) 200)%Q).
  { apply Q.min_glb; [|lra].
    apply Qle_shift_div_l; lra. }
  lra.
Qed.

(** C10: the signal strength computed by [calculateSignalStrength] for an
    accuracy >= 0 and a depth >= 0 lies in [5, 100]; hence every position
    built by the live ingestion path (accuracy >= 0 from the geolocation
    API, and [Math.sin] in [-1, 1], which keeps the depth >= 0) has a
    signal strength in [5, 100]. *)
Theorem live_signal_strength_range :
  (forall acc dep : Q, (0 <= acc)%Q -> (0 <= dep)%Q ->
     5 <= calculateSignalStrength acc dep <= 100)
  /\ (forall (getDistance : Q -> Q -> Q -> Q -> Q) (e : Env) (h : Hook) (f : GeoFix),
        (0 <= fix_accuracy f)%Q -> (-1 <= wave e <= 1)%Q ->
        5 <= signalStrength (newPositionOf getDistance e h f) <= 100).
Proof.
  split.
  - exact calculateSignalStrength_bounds.
  - intros gd e h f Hacc Hw. unfold newPositionOf. simpl.
    apply calculateSignalStrength_bounds; [exact Hacc|].
    pose proof (calculateDepth_nonneg e (fix_accuracy f) Hw) as Hd.
    rewrite Zle_Qle in Hd. exact Hd.
Qed.

Lemma live_signal_strength_range_witness :
  ((0 <= 120)%Q /\ (0 <= 40)%Q /\ 5 <= calculateSignalStrength 120%Q 40%Q <= 100)
  /\ ((0 <= fix_accuracy sampleFix)%Q /\ (-1 <= wave sampleEnv <= 1)%Q
      /\ 5 <= signalStrength (newPositionOf zeroDistance sampleEnv initialHook sampleFix) <= 100).
Proof.
  assert (Ha : (0 <= 120)%Q) by lra.
  assert (Hd : (0 <= 40)%Q) by lra.
  assert (Hf : (0 <= fix_accuracy sampleFix)%Q) by (simpl; lra).
  assert (Hw : (-1 <= wave sampleEnv <= 1)%Q) by (simpl; lra).
  split.
  - split; [exact Ha|]. split; [exact Hd|].
    exact (proj1 live_signal_strength_range 120%Q 40%Q Ha Hd).
  - split; [exact Hf|]. split; [exact Hw|].
    exact (proj2 live_signal_strength_range zeroDistance sampleEnv initialHook sampleFix Hf Hw).
Defined.

(** ** C6: geofence enter alerts *)

Fixpoint countBy (p : Alert -> bool) (l : list Alert) : nat :=
  match l with
  | [] => 0
  | a :: rest => (if p a then 1 else 0) + countBy p rest
  end.

Definition isEnterFor (id : string) (a : Alert) : bool :=
  match alert_type a, geofenceId a with
  | geofence_enter, Some g => String.eqb g id
  | _, _ => false
  end.

Definition isSignalLost (a : Alert) : bool :=
  match alert_type a with signal_lost => true | _ => false end.

Lemma countBy_app p l1 l2 : countBy p (l1 ++ l2) = (countBy p l1 + countBy p l2)%nat.
Proof. induction l1 as [|a l1 IH]; simpl; [reflexivity|]. rewrite IH. lia. Qed.

Lemma fenceStep_acc (gd : Q -> Q -> Q -> Q -> Q) e dev lp np acc fence :
  fenceStep gd e dev lp np acc fence = fenceStep gd e dev lp np [] fence ++ acc.
Proof.
  unfold fenceStep. destruct lp as [l|]; [|reflexivity].
  destruct (isActive fence); simpl; [|reflexivity].
  repeat match goal with |- context [if ?b then _ else _] => destruct b end;
    reflexivity.
Qed.

Lemma geofenceAlerts_acc (gd : Q -> Q -> Q -> Q -> Q) e dev lp np fences acc :
  geofenceAlerts gd e dev lp np fences acc
  = geofenceAlerts gd e dev lp np fences [] ++ acc.
Proof.
  unfold geofenceAlerts. revert acc.
  induction fences as [|fc fences IH]; intros acc; simpl; [reflexivity|].
  rewrite IH, (IH (fenceStep gd e dev lp np [] fc)), fenceStep_acc, app_assoc.
  reflexivity.
Qed.

Lemma geofenceAlerts_cons (gd : Q -> Q -> Q -> Q -> Q) e dev lp np fc fences :
  geofenceAlerts gd e dev lp np (fc :: fences) []
  = geofenceAlerts gd e dev lp np fences [] ++ fenceStep gd e dev lp np [] fc.
Proof.
  change (geofenceAlerts gd e dev lp np (fc :: fences) [])
    with (geofenceAlerts gd e dev lp np fences (fenceStep gd e dev lp np [] fc)).
  apply geofenceAlerts_acc.
Qed.

(** The enter alerts one fence contributes, as a number. *)
Lemma count_enter_fenceStep (gd : Q -> Q -> Q -> Q -> Q) e dev lp np id fence :
  countBy (isEnterFor id) (fenceStep gd e dev lp np [] fence)
  = (if String.eqb (gf_id fence) id then
       match lp with
       | Some l =>
           if isActive fence
              && negb (Qle_bool (gd (center_lat fence) (center_lng fence)
                                    (latitude l) (longitude l)) (radius fence))
              && Qle_bool (gd (center_lat fence) (center_lng fence)
                              (latitude np) (longitude np)) (radius fence)
              && alertOnEnter fence
           then 1 else 0
       | None => 0
       end
     else 0)%nat.
Proof.
  unfold fenceStep.
  destruct (String.eqb (gf_id fence) id) eqn:Hid;
  destruct lp as [l|]; try reflexivity;
  destruct (isActive fence); try reflexivity; simpl;
  destruct (Qle_bool (gd _ _ (latitude l) _) _);
  destruct (Qle_bool (gd _ _ (latitude np) _) _);
  destruct (alertOnEnter fence); destruct (alertOnExit fence);
  simpl; unfold isEnterFor; simpl; rewrite ?Hid; reflexivity.
Qed.

Lemma count_signal_fenceStep (gd : Q -> Q -> Q -> Q -> Q) e dev lp np fence :
  countBy isSignalLost (fenceStep gd e dev lp np [] fence) = 0%nat.
Proof.
  unfold fenceStep. destruct lp as [l|]; [|reflexivity].
  destruct (isActive fence); simpl; [|reflexivity].
  repeat match goal with |- context [if ?b then _ else _] => destruct b end;
    reflexivity.
Qed.

Lemma count_signal_geofenceAlerts (gd : Q -> Q -> Q -> Q -> Q) e dev lp np fences :
  countBy isSignalLost (geofenceAlerts gd e dev lp np fences []) = 0%nat.
Proof.
  induction fences as [|fc fences IH]; [reflexivity|].
  rewrite geofenceAlerts_cons, countBy_app, IH, count_signal_fenceStep.
  reflexivity.
Qed.

(** With distinct fence ids, the enter alerts for [g] come from [g] alone. *)
Lemma count_enter_geofenceAlerts (gd : Q -> Q -> Q -> Q -> Q) e dev lp np fences g :
  NoDup (map gf_id fences) -> g ∈ fences ->
  countBy (isEnterFor (gf_id g)) (geofenceAlerts gd e dev lp np fences [])
  = countBy (isEnterFor (gf_id g)) (fenceStep gd e dev lp np [] g).
Proof.
  induction fences as [|fc fences IH]; intros Hnd Hin; [inversion Hin|].
  simpl in Hnd. apply NoDup_cons in Hnd as [Hnotin Hnd].
  rewrite geofenceAlerts_cons, countBy_app.
  apply elem_of_cons in Hin as [Heqg|Hin].
  - (* the other fences have other ids *)
    assert (Hz : forall fs, gf_id g ∉ map gf_id fs ->
              countBy (isEnterFor (gf_id g)) (geofenceAlerts gd e dev lp np fs []) = 0%nat).
    { clear. induction fs as [|f fs IH]; intros Hn; [reflexivity|].
      simpl in Hn. apply not_elem_of_cons in Hn as [Hne Hn].
      rewrite geofenceAlerts_cons, countBy_app, IH by exact Hn.
      rewrite count_enter_fenceStep.
      destruct (String.eqb_spec (gf_id f) (gf_id g)); [congruence|reflexivity]. }
    subst fc. rewrite Hz by exact Hnotin. reflexivity.
  - rewrite IH by assumption. rewrite (count_enter_fenceStep gd e dev lp np (gf_id g) fc).
    destruct (String.eqb_spec (gf_id fc) (gf_id g)) as [Heq|]; [|lia].
    exfalso. apply Hnotin. rewrite Heq.
    apply list_elem_of_In, in_map, list_elem_of_In. exact Hin.
Qed.

Lemma geofenceAlerts_no_last (gd : Q -> Q -> Q -> Q -> Q) e dev np fences acc :
  geofenceAlerts gd e dev None np fences acc = acc.
Proof.
  unfold geofenceAlerts. revert acc.
  induction fences as [|fc fences IH]; intros acc; [reflexivity|]. apply IH.
Qed.

Lemma signalLost_no_last (sig : Z) : signalLost sig None = false.
Proof. unfold signalLost. simpl. rewrite !andb_false_r. reflexivity. Qed.

Lemma handlePosition_alerts (gd : Q -> Q -> Q -> Q -> Q) e f h :
  isPlaying (st h) = false ->
  alerts (st (handlePosition gd e f h)) = take 50 (emittedAlerts gd e h f ++ alerts (st h)).
Proof.
  intros Hp. unfold handlePosition, emittedAlerts; cbv zeta. rewrite Hp.
  destruct (zonesFor h f) as [zs fs]; simpl.
  rewrite geofenceAlerts_acc.
  destruct (signalLost _ _); reflexivity.
Qed.

Lemma handlePosition_current (gd : Q -> Q -> Q -> Q -> Q) e f h :
  isPlaying (st h) = false ->
  currentPosition (st (handlePosition gd e f h)) = Some (newPositionOf gd e h f).
Proof.
  intros Hp. unfold handlePosition; cbv zeta. rewrite Hp.
  destruct (zonesFor h f); reflexivity.
Qed.

(** After a fix, the geofences in use are those of that fix. *)
Lemma handlePosition_fences (gd : Q -> Q -> Q -> Q -> Q) e f f' h :
  isPlaying (st h) = false ->
  snd (zonesFor (handlePosition gd e f h) f') = snd (zonesFor h f).
Proof.
  intros Hp. unfold handlePosition; cbv zeta. rewrite Hp.
  destruct (zonesFor h f) as [zs fs]; reflexivity.
Qed.

Lemma count_enter_emitted (gd : Q -> Q -> Q -> Q -> Q) e f h g :
  NoDup (map gf_id (snd (zonesFor h f))) -> g ∈ snd (zonesFor h f) ->
  countBy (isEnterFor (gf_id g)) (emittedAlerts gd e h f)
  = match currentPosition (st h) with
    | Some lp =>
        if isActive g
           && negb (Qle_bool (gd (center_lat g) (center_lng g)
                                 (latitude lp) (longitude lp)) (radius g))
           && Qle_bool (gd (center_lat g) (center_lng g)
                           (fix_latitude f) (fix_longitude f)) (radius g)
           && alertOnEnter g
        then 1%nat else 0%nat
    | None => 0%nat
    end.
Proof.
  intros Hnd Hin. unfold emittedAlerts.
  assert (Hf : countBy (isEnterFor (gf_id g))
                 (geofenceAlerts gd e (device (st h)) (currentPosition (st h))
                    (newPositionOf gd e h f) (snd (zonesFor h f)) [])
               = match currentPosition (st h) with
                 | Some lp =>
                     if isActive g
                        && negb (Qle_bool (gd (center_lat g) (center_lng g)
                                              (latitude lp) (longitude lp)) (radius g))
                        && Qle_bool (gd (center_lat g) (center_lng g)
                                        (fix_latitude f) (fix_longitude f)) (radius g)
                        && alertOnEnter g
                     then 1%nat else 0%nat
                 | None => 0%nat
                 end).
  { rewrite count_enter_geofenceAlerts by assumption.
    rewrite count_enter_fenceStep, String.eqb_refl. reflexivity. }
  destruct (signalLost _ _); [|exact Hf].
  simpl. unfold isEnterFor at 1. simpl. exact Hf.
Qed.

Lemma count_signal_emitted (gd : Q -> Q -> Q -> Q -> Q) e f h :
  countBy isSignalLost (emittedAlerts gd e h f)
  = if signalLost (signalStrength (newPositionOf gd e h f)) (currentPosition (st h))
    then 1%nat else 0%nat.
Proof.
  unfold emittedAlerts.
  destruct (signalLost _ _); simpl; rewrite count_signal_geofenceAlerts; reflexivity.
Qed.

Lemma first_fix_emits_nothing (gd : Q -> Q -> Q -> Q -> Q) e f :
  emittedAlerts gd e initialHook f = [].
Proof.
  unfold emittedAlerts. simpl currentPosition.
  rewrite geofenceAlerts_no_last, signalLost_no_last. reflexivity.
Qed.

Lemma enter_once_out_in_in (gd : Q -> Q -> Q -> Q -> Q)
    (e1 e2 e3 : Env) (f1 f2 f3 : GeoFix) (h : Hook) (g : Geofence) :
  isPlaying (st h) = false ->
  NoDup (map gf_id (snd (zonesFor h f1))) -> g ∈ snd (zonesFor h f1) ->
  isActive g = true -> alertOnEnter g = true ->
  (radius g < gd (center_lat g) (center_lng g) (fix_latitude f1) (fix_longitude f1))%Q ->
  (gd (center_lat g) (center_lng g) (fix_latitude f2) (fix_longitude f2) <= radius g)%Q ->
  (gd (center_lat g) (center_lng g) (fix_latitude f3) (fix_longitude f3) <= radius g)%Q ->
  let h1 := handlePosition gd e1 f1 h in
  let h2 := handlePosition gd e2 f2 h1 in
  countBy (isEnterFor (gf_id g)) (emittedAlerts gd e1 h f1) = 0%nat
  /\ countBy (isEnterFor (gf_id g)) (emittedAlerts gd e2 h1 f2) = 1%nat
  /\ countBy (isEnterFor (gf_id g)) (emittedAlerts gd e3 h2 f3) = 0%nat.
Proof.
  intros Hp Hnd Hin Ha Hen Hout2 Hin2 Hin3 h1 h2.
  assert (Hp1 : isPlaying (st h1) = false) by (unfold h1; rewrite handlePosition_isPlaying; exact Hp).
  assert (Hz1 : snd (zonesFor h1 f2) = snd (zonesFor h f1))
    by (unfold h1; apply handlePosition_fences; exact Hp).
  assert (Hz2 : snd (zonesFor h2 f3) = snd (zonesFor h f1))
    by (unfold h2; rewrite handlePosition_fences by exact Hp1; exact Hz1).
  assert (Hb1 : Qle_bool (gd (center_lat g) (center_lng g) (fix_latitude f1) (fix_longitude f1))
                  (radius g) = false).
  { destruct (Qle_bool _ _) eqn:Hb; [|reflexivity].
    apply Qle_bool_iff in Hb. lra. }
  apply Qle_bool_iff in Hin2. apply Qle_bool_iff in Hin3.
  split; [|split].
  - rewrite count_enter_emitted by assumption. rewrite Hb1.
    destruct (currentPosition (st h)); [|reflexivity].
    rewrite !andb_false_r. reflexivity.
  - rewrite count_enter_emitted by (rewrite Hz1; assumption).
    unfold h1. rewrite handlePosition_current by exact Hp. simpl.
    rewrite Ha, Hen, Hb1, Hin2. reflexivity.
  - rewrite count_enter_emitted by (rewrite Hz2; assumption).
    unfold h2. rewrite handlePosition_current by exact Hp1. simpl.
    rewrite Hin2. rewrite !andb_false_r. reflexivity.
Qed.

(** C6: on a live fix (outside playback) the alerts it produces are put in
    front of the list, truncated to 50, and the fix becomes the previous
    position of the next fix; for every geofence [g] in use (ids distinct),
    exactly one enter alert for [g] is produced when a previous position
    exists, [g] is active, the previous position is farther than the radius,
    the new one is at distance <= radius (the boundary counts as inside) and
    [alertOnEnter] holds, and none otherwise. The first-ever fix produces no
    alert at all, and an outside, inside, inside run of fixes produces
    exactly one enter alert, on the second fix. *)
Theorem geofence_enter_alert_on_crossing (getDistance : Q -> Q -> Q -> Q -> Q) :
  (forall (e : Env) (f : GeoFix) (h : Hook) (g : Geofence),
     isPlaying (st h) = false ->
     NoDup (map gf_id (snd (zonesFor h f))) -> g ∈ snd (zonesFor h f) ->
     alerts (st (handlePosition getDistance e f h))
       = take 50 (emittedAlerts getDistance e h f ++ alerts (st h))
     /\ currentPosition (st (handlePosition getDistance e f h))
        = Some (newPositionOf getDistance e h f)
     /\ countBy (isEnterFor (gf_id g)) (emittedAlerts getDistance e h f)
        = match currentPosition (st h) with
          | Some lp =>
              if isActive g
                 && negb (Qle_bool (getDistance (center_lat g) (center_lng g)
                                      (latitude lp) (longitude lp)) (radius g))
                 && Qle_bool (getDistance (center_lat g) (center_lng g)
                                (fix_latitude f) (fix_longitude f)) (radius g)
                 && alertOnEnter g
              then 1%nat else 0%nat
          | None => 0%nat
          end)
  /\ (forall (e : Env) (f : GeoFix), emittedAlerts getDistance e initialHook f = [])
  /\ (forall (e1 e2 e3 : Env) (f1 f2 f3 : GeoFix) (h : Hook) (g : Geofence),
        isPlaying (st h) = false ->
        NoDup (map gf_id (snd (zonesFor h f1))) -> g ∈ snd (zonesFor h f1) ->
        isActive g = true -> alertOnEnter g = true ->
        (radius g < getDistance (center_lat g) (center_lng g)
                      (fix_latitude f1) (fix_longitude f1))%Q ->
        (getDistance (center_lat g) (center_lng g)
           (fix_latitude f2) (fix_longitude f2) <= radius g)%Q ->
        (getDistance (center_lat g) (center_lng g)
           (fix_latitude f3) (fix_longitude f3) <= radius g)%Q ->
        let h1 := handlePosition getDistance e1 f1 h in
        let h2 := handlePosition getDistance e2 f2 h1 in
        (countBy (isEnterFor (gf_id g)) (emittedAlerts getDistance e1 h f1)
         + countBy (isEnterFor (gf_id g)) (emittedAlerts getDistance e2 h1 f2)
         + countBy (isEnterFor (gf_id g)) (emittedAlerts getDistance e3 h2 f3))%nat
        = 1%nat
        /\ countBy (isEnterFor (gf_id g)) (emittedAlerts getDistance e2 h1 f2) = 1%nat).
Proof.
  split; [|split].
  - intros e f h g Hp Hnd Hin. split; [|split].
    + apply handlePosition_alerts. exact Hp.
    + apply handlePosition_current. exact Hp.
    + apply count_enter_emitted; assumption.
  - apply first_fix_emits_nothing.
  - intros e1 e2 e3 f1 f2 f3 h g Hp Hnd Hin Ha Hen H1 H2 H3 h1 h2.
    destruct (enter_once_out_in_in getDistance e1 e2 e3 f1 f2 f3 h g
                Hp Hnd Hin Ha Hen H1 H2 H3) as [C1 [C2 C3]].
    fold h1 in C2, C3. fold h2 in C3.
    rewrite C1, C2, C3. split; reflexivity.
Qed.

(** A hook that has seen one fix at (0, 0): zones and geofences created
    around it, the fix as current position. *)
Definition afterFirstFix : Hook :=
  mkHook (mkTrackingState (Some samplePos) [samplePos] miningVehicle
            (createMineGeofences 0 0) [] false (-1) 1 (createMineZones 0 0) false)
    true.

Definition hazardFence : Geofence :=
  mkGeofence "geofence-hazard" "Hazard Zone - Blasting Area"
    (0 - (1#1000))%Q (0 - (1#1000))%Q 100 true true false (Some Hazard).

Definition fixAt (lat lng : Q) : GeoFix := mkGeoFix lat lng 5 None None None 0.

Lemma geofence_enter_alert_on_crossing_witness :
  countBy (isEnterFor "geofence-hazard")
    (emittedAlerts gridDistance sampleEnv afterFirstFix (fixAt (-1#1000) (-1#1000))) = 1%nat
  /\ countBy (isEnterFor "geofence-hazard")
       (emittedAlerts gridDistance sampleEnv
          (handlePosition gridDistance sampleEnv (fixAt 0 0) afterFirstFix)
          (fixAt (-1#1000) (-1#1000))) = 1%nat.
Proof.
  assert (Hp : isPlaying (st afterFirstFix) = false) by reflexivity.
  assert (Hnd : forall f, NoDup (map gf_id (snd (zonesFor afterFirstFix f)))).
  { intros f. apply (bool_decide_unpack _). vm_compute. reflexivity. }
  assert (Hin : forall f, hazardFence ∈ snd (zonesFor afterFirstFix f)).
  { intros f. apply elem_of_cons. right. apply elem_of_cons. left. reflexivity. }
  destruct (geofence_enter_alert_on_crossing gridDistance) as [Hstep [_ Hrun]].
  split.
  - destruct (Hstep sampleEnv (fixAt (-1#1000) (-1#1000)) afterFirstFix hazardFence
                Hp (Hnd _) (Hin _)) as [_ [_ Hc]].
    exact Hc.
  - destruct (Hrun sampleEnv sampleEnv sampleEnv (fixAt 0 0) (fixAt (-1#1000) (-1#1000))
                (fixAt (-11#10000) (-1#1000)) afterFirstFix hazardFence
                Hp (Hnd _) (Hin _) eq_refl eq_refl) as [_ Hc].
    + vm_compute. reflexivity.
    + vm_compute. discriminate.
    + vm_compute. discriminate.
    + exact Hc.
Defined.

(** ** C7: signal-lost alerts *)

(** The readings a run of fixes produces, each with the number of
    signal-lost alerts the fix emitted. *)
Fixpoint signalTrace (gd : Q -> Q -> Q -> Q -> Q) (fs : list (Env * GeoFix)) (h : Hook)
  : list (Z * nat) :=
  match fs with
  | [] => []
  | (e, f) :: rest =>
      (signalStrength (newPositionOf gd e h f),
       countBy isSignalLost (emittedAlerts gd e h f))
      :: signalTrace gd rest (handlePosition gd e f h)
  end.

Definition fixWithAccuracy (acc : Q) : GeoFix := mkGeoFix 0 0 acc None None None 0.

(** The signal strength of a live fix: it depends on the fix and clock only. *)
Definition liveSignal (e : Env) (f : GeoFix) : Z :=
  calculateSignalStrength (fix_accuracy f) (inject_Z (calculateDepth e (fix_accuracy f))).

(** Falling-edge reference used to evaluate runs: prior reading >= 20 and
    current reading < 20. *)
Fixpoint fallingEdges (prev : option Z) (fs : list (Env * GeoFix)) : list (Z * nat) :=
  match fs with
  | [] => []
  | (e, f) :: rest =>
      let r := liveSignal e f in
      (r, match prev with
          | Some p => if (20 <=? p) && (r <? 20) then 1%nat else 0%nat
          | None => 0%nat
          end) :: fallingEdges (Some r) rest
  end.

Lemma signalLost_some (sig : Z) (lp : GPSPosition) :
  signalLost sig (Some lp) = (20 <=? signalStrength lp) && (sig <? 20).
Proof.
  unfold signalLost. simpl.
  destruct (Z.eqb_spec (signalStrength lp) 0) as [H0|H0]; simpl.
  - rewrite H0. simpl. rewrite andb_false_r. reflexivity.
  - rewrite andb_true_r, andb_comm. reflexivity.
Qed.

Lemma count_signal_prev (gd : Q -> Q -> Q -> Q -> Q) e f h :
  countBy isSignalLost (emittedAlerts gd e h f)
  = match currentPosition (st h) with
    | Some lp =>
        if (20 <=? signalStrength lp) && (signalStrength (newPositionOf gd e h f) <? 20)
        then 1%nat else 0%nat
    | None => 0%nat
    end.
Proof.
  rewrite count_signal_emitted.
  destruct (currentPosition (st h)) as [lp|].
  - rewrite signalLost_some. reflexivity.
  - rewrite signalLost_no_last. reflexivity.
Qed.

Lemma signalTrace_fallingEdges (gd : Q -> Q -> Q -> Q -> Q) fs h :
  isPlaying (st h) = false ->
  signalTrace gd fs h = fallingEdges (option_map signalStrength (currentPosition (st h))) fs.
Proof.
  revert h. induction fs as [|[e f] fs IH]; intros h Hp; [reflexivity|].
  simpl. rewrite count_signal_prev.
  rewrite IH by (rewrite handlePosition_isPlaying; exact Hp).
  rewrite handlePosition_current by exact Hp. simpl.
  destruct (currentPosition (st h)); reflexivity.
Qed.

Lemma emitted_signal_priority (gd : Q -> Q -> Q -> Q -> Q) e f h :
  Forall (fun a => isSignalLost a = true -> priority a = Some high)
    (emittedAlerts gd e h f).
Proof.
  assert (Hz : forall l, countBy isSignalLost l = 0%nat ->
                 Forall (fun a => isSignalLost a = true -> priority a = Some high) l).
  { induction l as [|a l IH]; intros H; [constructor|]. simpl in H.
    destruct (isSignalLost a) eqn:Ha; [lia|].
    constructor; [intros Ht; congruence|apply IH; lia]. }
  unfold emittedAlerts. destruct (signalLost _ _).
  - constructor; [intros _; reflexivity|]. apply Hz, count_signal_geofenceAlerts.
  - apply Hz, count_signal_geofenceAlerts.
Qed.

(** C7: a live fix (outside playback) emits a signal-lost alert exactly
    when a previous position exists, its signal strength is >= 20 and the
    new one is < 20 (one alert then, none otherwise), each with priority
    high. The first-ever reading never triggers: the readings [25, 18] give
    one alert, on the second fix, and [18, 25, 15] give one, on the third.
    (A live reading is computed from the accuracy: 65, 71 and 74 m, at a
    clock with [Math.sin] = 0, give 25, 18 and 15.) *)
Theorem signal_lost_falling_edge (getDistance : Q -> Q -> Q -> Q -> Q) :
  (forall (e : Env) (f : GeoFix) (h : Hook),
     isPlaying (st h) = false ->
     alerts (st (handlePosition getDistance e f h))
       = take 50 (emittedAlerts getDistance e h f ++ alerts (st h))
     /\ countBy isSignalLost (emittedAlerts getDistance e h f)
        = match currentPosition (st h) with
          | Some lp =>
              if (20 <=? signalStrength lp)
                 && (signalStrength (newPositionOf getDistance e h f) <? 20)
              then 1%nat else 0%nat
          | None => 0%nat
          end
     /\ Forall (fun a => isSignalLost a = true -> priority a = Some high)
          (emittedAlerts getDistance e h f))
  /\ signalTrace getDistance
       [(sampleEnv, fixWithAccuracy 65); (sampleEnv, fixWithAccuracy 71)] initialHook
     = [(25, 0%nat); (18, 1%nat)]
  /\ signalTrace getDistance
       [(sampleEnv, fixWithAccuracy 71); (sampleEnv, fixWithAccuracy 65);
        (sampleEnv, fixWithAccuracy 74)] initialHook
     = [(18, 0%nat); (25, 0%nat); (15, 1%nat)].
Proof.
  split; [|split].
  - intros e f h Hp. split; [|split].
    + apply handlePosition_alerts. exact Hp.
    + apply count_signal_prev.
    + apply emitted_signal_priority.
  - rewrite signalTrace_fallingEdges by reflexivity. vm_compute. reflexivity.
  - rewrite signalTrace_fallingEdges by reflexivity. vm_compute. reflexivity.
Qed.

Lemma signal_lost_falling_edge_witness :
  countBy isSignalLost
    (emittedAlerts zeroDistance sampleEnv
       (handlePosition zeroDistance sampleEnv (fixWithAccuracy 65) initialHook)
       (fixWithAccuracy 71)) = 1%nat.
Proof.
  destruct (signal_lost_falling_edge zeroDistance) as [Hstep _].
  destruct (Hstep sampleEnv (fixWithAccuracy 71)
              (handlePosition zeroDistance sampleEnv (fixWithAccuracy 65) initialHook)
              eq_refl) as [_ [Hc _]].
  rewrite Hc. vm_compute. reflexivity.
Defined.

(** * Further operations of [useTracking] (part_000) *)

(** The [id] of an alert of this hook, rebuilt from its producer:
    [alert-${now}] (geofence), [alert-${now}-signal],
    [alert-emergency-${now}], [alert-breakdown-${now}]. *)
Definition alertId (a : Alert) : string :=
  match alert_type a with
  | signal_lost => String.append "alert-" (String.append (pretty (alert_stamp a)) "-signal")
  | emergency => String.append "alert-emergency-" (pretty (alert_stamp a))
  | breakdown => String.append "alert-breakdown-" (pretty (alert_stamp a))
  | _ => String.append "alert-" (pretty (alert_stamp a))
  end.

Definition withAlertsDevice (s : TrackingState) (als : list Alert) (dev : Device)
  : TrackingState :=
  mkTrackingState (currentPosition s) (trackHistory s) dev (geofences s) als
    (isPlaying s) (playbackIndex s) (playbackSpeed s) (mineZones s) (isUnderground s).

Definition withStatus (dev : Device) (stt : DeviceStatus) : Device :=
  mkDevice (dev_id dev) (dev_name dev) (lastPosition dev) (isOnline dev)
    (lastSeen dev) (Some stt).

(** [triggerEmergency] (l.309-334). *)
Definition triggerEmergency (e : Env) (s : TrackingState) : TrackingState :=
  match currentPosition s with
  | None => s
  | Some cp =>
      let emergencyAlert :=
        mkAlert (now e) emergency false (dev_id (device s)) None (Some critical)
          (Some (latitude cp, longitude cp, depth cp)) in
      withAlertsDevice s (take 50 (emergencyAlert :: alerts s))
        (withStatus (device s) st_emergency)
  end.

(** [reportBreakdown] (l.336-361). *)
Definition reportBreakdown (e : Env) (s : TrackingState) : TrackingState :=
  match currentPosition s with
  | None => s
  | Some cp =>
      let breakdownAlert :=
        mkAlert (now e) breakdown false (dev_id (device s)) None (Some high)
          (Some (latitude cp, longitude cp, depth cp)) in
      withAlertsDevice s (take 50 (breakdownAlert :: alerts s))
        (withStatus (device s) st_breakdown)
  end.

(** [clearEmergency] (l.363-368). *)
Definition clearEmergency (s : TrackingState) : TrackingState :=
  withAlertsDevice s (alerts s) (withStatus (device s) operational).

Definition markRead (a : Alert) : Alert :=
  mkAlert (alert_stamp a) (alert_type a) true (deviceId a) (geofenceId a)
    (priority a) (location a).

(** [dismissAlert(alertId)] (l.435-442). *)
Definition dismissAlert (id : string) (s : TrackingState) : TrackingState :=
  withAlertsDevice s
    (map (fun a => if String.eqb (alertId a) id then markRead a else a) (alerts s))
    (device s).

(** [addGeofence(geofence)] (l.444-449): the caller's fields, a fresh id. *)
Definition addGeofence (e : Env) (g : Geofence) (s : TrackingState) : TrackingState :=
  let g' := mkGeofence (String.append "geofence-" (pretty (now e))) (gf_name g)
              (center_lat g) (center_lng g) (radius g) (isActive g)
              (alertOnEnter g) (alertOnExit g) (zoneType g) in
  mkTrackingState (currentPosition s) (trackHistory s) (device s)
    (geofences s ++ [g']) (alerts s) (isPlaying s) (playbackIndex s)
    (playbackSpeed s) (mineZones s) (isUnderground s).

(** Every entry point of the hook. *)
Inductive Action :=
  | Core (o : Op)
  | Emergency (e : Env)
  | Breakdown (e : Env)
  | ClearEmergency
  | Dismiss (id : string)
  | AddGeofence (e : Env) (g : Geofence).

Definition applyAction (gd : Q -> Q -> Q -> Q -> Q) (a : Action) (h : Hook) : Hook :=
  match a with
  | Core o => applyOp gd o h
  | Emergency e => onState (triggerEmergency e) h
  | Breakdown e => onState (reportBreakdown e) h
  | ClearEmergency => onState clearEmergency h
  | Dismiss id => onState (dismissAlert id) h
  | AddGeofence e g => onState (addGeofence e g) h
  end.

Fixpoint runActions (gd : Q -> Q -> Q -> Q -> Q) (acts : list Action) (h : Hook) : Hook :=
  match acts with
  | [] => h
  | a :: rest => runActions gd rest (applyAction gd a h)
  end.

(** [n] firings of the playback interval. *)
Definition ticks (n : nat) (s : TrackingState) : TrackingState :=
  Nat.iter n playbackTick s.

(** Whether an action writes the device status. *)
Definition touchesStatus (a : Action) : bool :=
  match a with Emergency _ | Breakdown _ | ClearEmergency => true | _ => false end.

Definition boundedState (s : TrackingState) : Prop :=
  (length (alerts s) <= 50)%nat /\ (length (trackHistory s) <= 200)%nat.

(** ** Lemmas on the further operations *)

Lemma take50_length {A} (l : list A) : (length (take 50 l) <= 50)%nat.
Proof. rewrite length_take. lia. Qed.

Lemma historyAppend_length (l : list GPSPosition) (p : GPSPosition) :
  (length (historyAppend l p) <= 200)%nat.
Proof. unfold historyAppend, slice_neg. rewrite length_app, length_drop. simpl. lia. Qed.

Lemma handlePosition_history (gd : Q -> Q -> Q -> Q -> Q) e f h :
  isPlaying (st h) = false ->
  trackHistory (st (handlePosition gd e f h))
  = historyAppend (trackHistory (st h)) (newPositionOf gd e h f).
Proof.
  intros Hp. unfold handlePosition; cbv zeta. rewrite Hp.
  destruct (zonesFor h f); reflexivity.
Qed.

Lemma handlePosition_device (gd : Q -> Q -> Q -> Q -> Q) e f h :
  status (device (st (handlePosition gd e f h))) = status (device (st h))
  /\ dev_id (device (st (handlePosition gd e f h))) = dev_id (device (st h)).
Proof.
  unfold handlePosition; cbv zeta. destruct (isPlaying (st h)); [split; reflexivity|].
  destruct (zonesFor h f); split; reflexivity.
Qed.

Lemma applyAction_bounded (gd : Q -> Q -> Q -> Q -> Q) (a : Action) (h : Hook) :
  boundedState (st h) -> boundedState (st (applyAction gd a h)).
Proof.
  intros [Ha Hh]. destruct a as [o|e|e| |id|e g].
  - destruct o as [| |i| |q|e f]; simpl; try (split; assumption).
    + unfold playbackTick. destruct (_ <=? _); split; assumption.
    + destruct (isPlaying (st h)) eqn:Hp.
      * rewrite handlePosition_playing by exact Hp. split; assumption.
      * unfold boundedState.
        rewrite handlePosition_alerts, handlePosition_history by exact Hp.
        split; [apply take50_length|apply historyAppend_length].
  - simpl. unfold triggerEmergency. destruct (currentPosition (st h)).
    + split; [apply take50_length|exact Hh].
    + split; assumption.
  - simpl. unfold reportBreakdown. destruct (currentPosition (st h)).
    + split; [apply take50_length|exact Hh].
    + split; assumption.
  - split; assumption.
  - simpl. unfold boundedState; simpl. rewrite length_map. split; assumption.
  - split; assumption.
Qed.

Lemma runActions_bounded (gd : Q -> Q -> Q -> Q -> Q) (acts : list Action) (h : Hook) :
  boundedState (st h) -> boundedState (st (runActions gd acts h)).
Proof.
  revert h. induction acts as [|a acts IH]; intros h Hb; simpl; [exact Hb|].
  apply IH, applyAction_bounded, Hb.
Qed.

Lemma lookup_map_alt {A B} (f : A -> B) (l : list A) (i : nat) :
  map f l !! i = f <$> (l !! i).
Proof. revert i. induction l as [|x l IH]; intros [|i]; simpl; auto. Qed.

Lemma alertId_markRead (a : Alert) : alertId (markRead a) = alertId a.
Proof. reflexivity. Qed.

(** ** Further properties of [useTracking] *)

(** A device status set by an emergency or a breakdown report survives
    every other action (live fixes, playback, dismissing alerts, adding
    geofences); only triggerEmergency, reportBreakdown and clearEmergency
    write it (part_000 l.263, l.331, l.358, l.366). *)
Theorem status_changes_only_by_request
    (gd : Q -> Q -> Q -> Q -> Q) (acts : list Action) (h : Hook) :
  forallb (fun a => negb (touchesStatus a)) acts = true ->
  status (device (st (runActions gd acts h))) = status (device (st h)).
Proof.
  revert h. induction acts as [|a acts IH]; intros h Hall; simpl in *; [reflexivity|].
  apply andb_prop in Hall as [Ha Hrest]. rewrite IH by exact Hrest.
  destruct a as [o|e|e| |id|e g]; simpl in Ha; try discriminate; simpl; try reflexivity.
  destruct o as [| |i| |q|e f]; simpl; try reflexivity.
  - unfold playbackTick. destruct (_ <=? _); reflexivity.
  - apply handlePosition_device.
Qed.

Lemma status_changes_only_by_request_witness :
  let acts := [Core (Fix sampleEnv sampleFix); Dismiss "alert-0"; Core Start; Core Tick] in
  forallb (fun a => negb (touchesStatus a)) acts = true
  /\ status (device (st (runActions zeroDistance acts
         (runActions zeroDistance [Core (Fix sampleEnv sampleFix); Breakdown sampleEnv]
          initialHook))))
     = status (device (st (runActions zeroDistance
         [Core (Fix sampleEnv sampleFix); Breakdown sampleEnv] initialHook))).
Proof.
  cbv zeta. split; [reflexivity|].
  apply (status_changes_only_by_request zeroDistance
           [Core (Fix sampleEnv sampleFix); Dismiss "alert-0"; Core Start; Core Tick]).
  reflexivity.
Defined.

(** dismissAlert (part_000 l.435-442) keeps the number and order of alerts,
    sets [isRead] on every alert whose id is the given one (all alerts
    sharing it) and on no other, changes no other field, is idempotent,
    and leaves the state as it was when no alert has that id. *)
Theorem dismissAlert_marks_matching (id : string) (s : TrackingState) :
  length (alerts (dismissAlert id s)) = length (alerts s)
  /\ (forall i a, alerts s !! i = Some a ->
        alerts (dismissAlert id s) !! i
        = Some (mkAlert (alert_stamp a) (alert_type a)
                  (isRead a || String.eqb (alertId a) id)
                  (deviceId a) (geofenceId a) (priority a) (location a)))
  /\ dismissAlert id (dismissAlert id s) = dismissAlert id s
  /\ (Forall (fun a => String.eqb (alertId a) id = false) (alerts s) ->
      dismissAlert id s = s).
Proof.
  split; [|split; [|split]].
  - simpl. apply length_map.
  - intros i a Ha. simpl. rewrite lookup_map_alt, Ha. simpl.
    destruct (String.eqb (alertId a) id); destruct a as [? ? r ? ? ? ?]; simpl.
    + rewrite orb_true_r. reflexivity.
    + rewrite orb_false_r. reflexivity.
  - unfold dismissAlert, withAlertsDevice; simpl. f_equal.
    rewrite map_map. apply map_ext. intros a.
    destruct (String.eqb (alertId a) id) eqn:E.
    + rewrite alertId_markRead, E. reflexivity.
    + rewrite E. reflexivity.
  - intros Hall. destruct s as [c th dv gs als pl pi ps mz u]; simpl in *.
    unfold dismissAlert, withAlertsDevice; simpl. f_equal.
    induction Hall as [|a als Ha Hall IH]; [reflexivity|].
    simpl. rewrite Ha. f_equal. exact IH.
Qed.

(** Whatever the user does (live fixes, playback, seeking, emergency and
    breakdown reports, dismissing alerts, adding geofences), the hook keeps
    at most 50 alerts and at most 200 history entries. *)
Theorem actions_keep_bounds (gd : Q -> Q -> Q -> Q -> Q) (acts : list Action) :
  (length (alerts (st (runActions gd acts initialHook))) <= 50)%nat
  /\ (length (trackHistory (st (runActions gd acts initialHook))) <= 200)%nat.
Proof.
  apply runActions_bounded. split; simpl; lia.
Qed.

(** calculateDepth (part_000 l.114-123): 0 for an accuracy of at most 50 m;
    above 50 m, with [Math.sin] in [-1, 1], between 5 and 220 m. *)
Theorem calculateDepth_range (e : Env) (acc : Q) :
  (-1 <= wave e <= 1)%Q ->
  ((acc <= 50)%Q -> calculateDepth e acc = 0)
  /\ ((50 < acc)%Q -> 5 <= calculateDepth e acc <= 220).
Proof.
  intros Hw. unfold calculateDepth, Qlt_bool. split.
  - intros Hle. apply Qle_bool_iff in Hle. rewrite Hle. reflexivity.
  - intros H50. destruct (Qle_bool acc 50) eqn:Hle.
    { apply Qle_bool_iff in Hle. lra. }
    simpl. split.
    + apply js_round_ge. unfold inject_Z.
      assert (Hm : (25 < Qmin (acc / 2) 200)%Q).
      { apply Q.min_glb_lt; [|lra]. apply Qlt_shift_div_l; lra. }
      lra.
    + apply js_round_le. unfold inject_Z.
      assert (Hm : (Qmin (acc / 2) 200 <= 200)%Q) by apply Q.le_min_r.
      lra.
Qed.

Lemma calculateDepth_range_witness :
  (-1 <= wave (mkEnv 0 (1#2)) <= 1)%Q
  /\ (((120 <= 50)%Q -> calculateDepth (mkEnv 0 (1#2)) 120 = 0)
      /\ ((50 < 120)%Q -> 5 <= calculateDepth (mkEnv 0 (1#2)) 120 <= 220)).
Proof.
  assert (Hw : (-1 <= wave (mkEnv 0 (1#2)) <= 1)%Q) by (simpl; lra).
  split; [exact Hw|]. exact (calculateDepth_range (mkEnv 0 (1#2)) 120 Hw).
Defined.

(** determineZone (part_000 l.134-144) names the first mine zone whose
    centre is closer than 100 m, all zones before it being at least 100 m
    away; when no zone is closer than 100 m it returns "Surface". *)
Theorem determineZone_first_near (gd : Q -> Q -> Q -> Q -> Q) (lat lng : Q)
    (zones : list MineZone) :
  (Forall (fun z => 100 <= gd lat lng (fst (zone_center z)) (snd (zone_center z)))%Q zones
   /\ determineZone gd lat lng zones = "Surface")
  \/ (exists pre z post, zones = pre ++ z :: post
      /\ Forall (fun z => 100 <= gd lat lng (fst (zone_center z)) (snd (zone_center z)))%Q pre
      /\ (gd lat lng (fst (zone_center z)) (snd (zone_center z)) < 100)%Q
      /\ determineZone gd lat lng zones = mz_name z).
Proof.
  induction zones as [|z zones IH]; [left; split; [constructor|reflexivity]|].
  simpl. destruct (zone_center z) as [clat clng] eqn:Hc. simpl.
  unfold Qlt_bool. destruct (Qle_bool 100 (gd lat lng clat clng)) eqn:Hd; simpl.
  - apply Qle_bool_iff in Hd.
    destruct IH as [[Hall Hs]|(pre & z' & post & -> & Hpre & Hnear & Hn)].
    + left. split; [|exact Hs]. constructor; [rewrite Hc; exact Hd|exact Hall].
    + right. exists (z :: pre), z', post. split; [reflexivity|].
      split; [constructor; [rewrite Hc; exact Hd|exact Hpre]|].
      split; [exact Hnear|exact Hn].
  - right. exists [], z, zones. split; [reflexivity|]. split; [constructor|].
    split; [|reflexivity]. rewrite Hc. simpl.
    apply Qnot_le_lt. intros H. apply Qle_bool_iff in H. congruence.
Qed.

Lemma handlePosition_zones_kept (gd : Q -> Q -> Q -> Q -> Q) e f h :
  isPlaying (st h) = false -> initialPositionSet h = true ->
  geofences (st (handlePosition gd e f h)) = geofences (st h)
  /\ mineZones (st (handlePosition gd e f h)) = mineZones (st h)
  /\ initialPositionSet (handlePosition gd e f h) = true.
Proof.
  intros Hp Hi. unfold handlePosition; cbv zeta. rewrite Hp.
  unfold zonesFor. rewrite Hi. repeat split.
Qed.

Lemma runFixes_zones_kept (gd : Q -> Q -> Q -> Q -> Q) fs h :
  isPlaying (st h) = false -> initialPositionSet h = true ->
  geofences (st (runFixes gd fs h)) = geofences (st h)
  /\ mineZones (st (runFixes gd fs h)) = mineZones (st h)
  /\ initialPositionSet (runFixes gd fs h) = true.
Proof.
  revert h. induction fs as [|[e f] fs IH]; intros h Hp Hi; simpl; [auto|].
  destruct (handlePosition_zones_kept gd e f h Hp Hi) as (Hg & Hz & Hs).
  destruct (IH (handlePosition gd e f h)) as (Hg' & Hz' & Hs');
    [rewrite handlePosition_isPlaying; exact Hp|exact Hs|].
  rewrite Hg', Hz', Hg, Hz. auto.
Qed.

(** The first live fix creates the mine zones and the three mine geofences
    around itself (part_000 l.169-176); every later fix keeps them. So on
    the live path the geofences in use always have distinct ids and are
    all active. *)
Theorem fences_fixed_by_first_fix (gd : Q -> Q -> Q -> Q -> Q) (e : Env) (f : GeoFix)
    (rest : list (Env * GeoFix)) :
  let h := runFixes gd ((e, f) :: rest) initialHook in
  geofences (st h) = createMineGeofences (fix_latitude f) (fix_longitude f)
  /\ mineZones (st h) = createMineZones (fix_latitude f) (fix_longitude f)
  /\ NoDup (map gf_id (geofences (st h)))
  /\ Forall (fun g => isActive g = true) (geofences (st h)).
Proof.
  cbv zeta. simpl.
  destruct (runFixes_zones_kept gd rest (handlePosition gd e f initialHook))
    as (Hg & Hz & _); [reflexivity|reflexivity|].
  rewrite Hg, Hz. simpl.
  split; [reflexivity|]. split; [reflexivity|].
  split.
  - repeat constructor; set_solver.
  - repeat constructor.
Qed.

(** addGeofence (part_000 l.444-449) appends the fence to the list, but a
    fence added before the first live fix is lost: that fix replaces the
    list with the three mine geofences. After the first fix, live fixes
    keep the added fence. *)
Theorem addGeofence_before_first_fix_lost (gd : Q -> Q -> Q -> Q -> Q)
    (e e' : Env) (g : Geofence) (f : GeoFix) (h : Hook) :
  isPlaying (st h) = false ->
  geofences (st (handlePosition gd e' f (onState (addGeofence e g) h)))
  = if initialPositionSet h
    then geofences (st h) ++
           [mkGeofence (String.append "geofence-" (pretty (now e))) (gf_name g)
              (center_lat g) (center_lng g) (radius g) (isActive g)
              (alertOnEnter g) (alertOnExit g) (zoneType g)]
    else createMineGeofences (fix_latitude f) (fix_longitude f).
Proof.
  intros Hp. unfold handlePosition; cbv zeta. simpl. rewrite Hp.
  unfold zonesFor; simpl. destruct (initialPositionSet h); reflexivity.
Qed.

Lemma addGeofence_before_first_fix_lost_witness :
  isPlaying (st initialHook) = false
  /\ geofences (st (handlePosition zeroDistance sampleEnv sampleFix
                      (onState (addGeofence sampleEnv hazardFence) initialHook)))
     = createMineGeofences 0 0.
Proof.
  split; [reflexivity|].
  exact (addGeofence_before_first_fix_lost zeroDistance sampleEnv sampleEnv hazardFence
           sampleFix initialHook eq_refl).
Defined.

Lemma ticks_S (n : nat) (s : TrackingState) : ticks (S n) s = playbackTick (ticks n s).
Proof. reflexivity. Qed.

Lemma ticks_walk (s : TrackingState) (k : nat) :
  (k < length (trackHistory s))%nat ->
  isPlaying (ticks k (startPlayback s)) = true
  /\ playbackIndex (ticks k (startPlayback s)) = Z.of_nat k
  /\ trackHistory (ticks k (startPlayback s)) = trackHistory s
  /\ currentPosition (ticks k (startPlayback s))
     = match k with O => currentPosition s | _ => trackHistory s !! k end.
Proof.
  induction k as [|k IH]; intros Hk; [repeat split|].
  destruct IH as (Hp & Hi & Hh & _); [lia|].
  rewrite ticks_S. unfold playbackTick; cbv zeta. rewrite Hi, Hh.
  destruct (Z.leb_spec (Z.of_nat (length (trackHistory s))) (Z.of_nat k + 1)); [lia|].
  unfold withPlayback; simpl. repeat split; [exact Hp|lia|exact Hh|].
  unfold js_index.
  destruct (Z.ltb_spec (Z.of_nat k + 1) 0); [lia|].
  f_equal. lia.
Qed.

Lemma playbackTick_fixed (s : TrackingState) :
  isPlaying s = false ->
  playbackIndex s = Z.of_nat (length (trackHistory s)) - 1 ->
  playbackTick s = s.
Proof.
  intros Hp Hi. unfold playbackTick. rewrite Hi.
  destruct (Z.leb_spec (Z.of_nat (length (trackHistory s)))
              (Z.of_nat (length (trackHistory s)) - 1 + 1)); [|lia].
  destruct s; simpl in *. unfold withPlayback; simpl. subst. reflexivity.
Qed.

Lemma ticks_fixed (n : nat) (s : TrackingState) :
  isPlaying s = false ->
  playbackIndex s = Z.of_nat (length (trackHistory s)) - 1 ->
  ticks n s = s.
Proof.
  intros Hp Hi. induction n as [|n IH]; [reflexivity|].
  rewrite ticks_S, IH. apply playbackTick_fixed; assumption.
Qed.

(** The playback interval (part_000 l.406-433) after startPlayback walks
    the history one entry per tick: after k ticks, for k below the history
    length, it is still playing with cursor k and shows entry k; before
    the first tick it still shows the position it showed before. *)
Theorem playback_walks_history (s : TrackingState) (k : nat) :
  (k < length (trackHistory s))%nat ->
  isPlaying (ticks k (startPlayback s)) = true
  /\ playbackIndex (ticks k (startPlayback s)) = Z.of_nat k
  /\ currentPosition (ticks k (startPlayback s))
     = match k with O => currentPosition s | _ => trackHistory s !! k end.
Proof.
  intros Hk. destruct (ticks_walk s k Hk) as (Hp & Hi & _ & Hc). auto.
Qed.

Definition threeFixes : list GPSPosition :=
  [samplePos; samplePos; samplePos].

Lemma playback_walks_history_witness :
  (2 < length (trackHistory (st (playbackHook threeFixes false (-1)))))%nat
  /\ isPlaying (ticks 2 (startPlayback (st (playbackHook threeFixes false (-1))))) = true
  /\ playbackIndex (ticks 2 (startPlayback (st (playbackHook threeFixes false (-1))))) = 2
  /\ currentPosition (ticks 2 (startPlayback (st (playbackHook threeFixes false (-1)))))
     = Some samplePos.
Proof.
  assert (Hk : (2 < length (trackHistory (st (playbackHook threeFixes false (-1)))))%nat)
    by (simpl; lia).
  split; [exact Hk|].
  exact (playback_walks_history (st (playbackHook threeFixes false (-1))) 2 Hk).
Defined.

(** Once the playback has used every history entry (at least
    max(length, 1) ticks after startPlayback) it has stopped by itself:
    not playing, cursor on the last entry (-1 for an empty history), and
    further ticks change nothing. It then shows the last entry when the
    history has two or more entries; with zero or one entry it never left
    the position shown before startPlayback. *)
Theorem playback_stops_at_end (s : TrackingState) (n : nat) :
  (Nat.max (length (trackHistory s)) 1 <= n)%nat ->
  isPlaying (ticks n (startPlayback s)) = false
  /\ playbackIndex (ticks n (startPlayback s)) = Z.of_nat (length (trackHistory s)) - 1
  /\ currentPosition (ticks n (startPlayback s))
     = match trackHistory s with
       | [] | [_] => currentPosition s
       | _ => last (trackHistory s)
       end
  /\ playbackTick (ticks n (startPlayback s)) = ticks n (startPlayback s).
Proof.
  intros Hn.
  set (L := length (trackHistory s)).
  (* the tick that stops the playback is tick number max(L,1) *)
  assert (Hend : let s1 := ticks (Nat.max L 1) (startPlayback s) in
            isPlaying s1 = false
            /\ playbackIndex s1 = Z.of_nat L - 1
            /\ trackHistory s1 = trackHistory s
            /\ currentPosition s1 = match trackHistory s with
                                    | [] | [_] => currentPosition s
                                    | _ => last (trackHistory s)
                                    end).
  { cbv zeta. destruct L as [|m] eqn:HL.
    - assert (Ht : trackHistory s = []) by (apply nil_length_inv; exact HL).
      simpl. unfold playbackTick, startPlayback, withPlayback; simpl. rewrite Ht.
      simpl. auto.
    - replace (Nat.max (S m) 1) with (S m) by lia.
      destruct (ticks_walk s m) as (Hp & Hi & Hh & Hc); [lia|].
      rewrite ticks_S. unfold playbackTick. rewrite Hi, Hh. fold L. rewrite HL.
      destruct (Z.leb_spec (Z.of_nat (S m)) (Z.of_nat m + 1)); [|lia].
      unfold withPlayback; simpl. split; [reflexivity|]. split; [reflexivity|].
      split; [exact Hh|]. rewrite Hc.
      assert (HL' : length (trackHistory s) = S m) by exact HL.
      destruct (trackHistory s) as [|x [|y l]] eqn:Ht; simpl in HL'; try lia.
      + replace m with 0%nat by lia. reflexivity.
      + destruct m as [|m]; [lia|].
        rewrite last_lookup. simpl in HL' |- *. f_equal. lia. }
  cbv zeta in Hend. destruct Hend as (Hp & Hi & Hh & Hc).
  assert (Hsplit : ticks n (startPlayback s)
                   = ticks (n - Nat.max L 1) (ticks (Nat.max L 1) (startPlayback s))).
  { unfold ticks. rewrite <- Nat.iter_add. f_equal. lia. }
  assert (Hfix : forall j, ticks j (ticks (Nat.max L 1) (startPlayback s))
                           = ticks (Nat.max L 1) (startPlayback s)).
  { intros j. apply ticks_fixed; [exact Hp|]. rewrite Hi, Hh. reflexivity. }
  rewrite Hsplit.
  rewrite Hfix. split; [exact Hp|]. split; [exact Hi|]. split; [exact Hc|].
  apply playbackTick_fixed; [exact Hp|]. rewrite Hi, Hh. reflexivity.
Qed.

Lemma playback_stops_at_end_witness :
  (Nat.max (length (trackHistory (st (playbackHook threeFixes false (-1))))) 1 <= 5)%nat
  /\ isPlaying (ticks 5 (startPlayback (st (playbackHook threeFixes false (-1))))) = false
  /\ playbackIndex (ticks 5 (startPlayback (st (playbackHook threeFixes false (-1))))) = 2
  /\ currentPosition (ticks 5 (startPlayback (st (playbackHook threeFixes false (-1)))))
     = Some samplePos
  /\ playbackTick (ticks 5 (startPlayback (st (playbackHook threeFixes false (-1)))))
     = ticks 5 (startPlayback (st (playbackHook threeFixes false (-1)))).
Proof.
  assert (Hn : (Nat.max (length (trackHistory (st (playbackHook threeFixes false (-1))))) 1
                <= 5)%nat) by (simpl; lia).
  split; [exact Hn|].
  exact (playback_stops_at_end (st (playbackHook threeFixes false (-1))) 5 Hn).
Defined.

(** * [useSupabaseTracking] (part_001) *)

(** ** Realtime handlers (l.165-231) *)

(** [[...h.slice(-199), p]] on any element type. *)
Definition sliceAppend {P} (h : list P) (p : P) : list P :=
  slice_neg 199 h ++ [p].

(** The state the position handler writes: [allDevicePositions],
    [allDeviceTrackHistory] (the two [Map]s), [currentPosition] and
    [trackHistory]. [P] is the result type of [toGPSPosition]. *)
Record RealtimeView (P : Type) := mkRealtimeView {
  allDevicePositions : gmap string P;
  allDeviceTrackHistory : gmap string (list P);
  rt_currentPosition : option P;
  rt_trackHistory : list P;
}.
Arguments mkRealtimeView {P}.
Arguments allDevicePositions {P}.
Arguments allDeviceTrackHistory {P}.
Arguments rt_currentPosition {P}.
Arguments rt_trackHistory {P}.

(** [!selectedDeviceId || newPosition.device_id === selectedDeviceId]. *)
Definition follows (selectedDeviceId : option string) (deviceId : string) : bool :=
  match selectedDeviceId with
  | None => true
  | Some sel => String.eqb sel "" || String.eqb deviceId sel
  end.

(** The INSERT handler of [tracking_positions] (l.176-200). *)
Definition onPositionInsert {P} (selectedDeviceId : option string) (deviceId : string)
    (gpsPosition : P) (v : RealtimeView P) : RealtimeView P :=
  let deviceHistory := default [] (allDeviceTrackHistory v !! deviceId) in
  let sel := follows selectedDeviceId deviceId in
  mkRealtimeView
    (<[deviceId := gpsPosition]> (allDevicePositions v))
    (<[deviceId := sliceAppend deviceHistory gpsPosition]> (allDeviceTrackHistory v))
    (if sel then Some gpsPosition else rt_currentPosition v)
    (if sel then sliceAppend (rt_trackHistory v) gpsPosition else rt_trackHistory v).

Definition onPositionInserts {P} (selectedDeviceId : option string)
    (evs : list (string * P)) (v : RealtimeView P) : RealtimeView P :=
  foldl (fun v ev => onPositionInsert selectedDeviceId ev.1 ev.2 v) v evs.

(** The positions of one device in a stream of inserts. *)
Fixpoint positionsOf {P} (d : string) (evs : list (string * P)) : list P :=
  match evs with
  | [] => []
  | (d', p) :: rest => if String.eqb d' d then p :: positionsOf d rest else positionsOf d rest
  end.

(** The positions that reach [currentPosition] and [trackHistory]. *)
Fixpoint followedPositions {P} (selectedDeviceId : option string)
    (evs : list (string * P)) : list P :=
  match evs with
  | [] => []
  | (d', p) :: rest =>
      if follows selectedDeviceId d' then p :: followedPositions selectedDeviceId rest
      else followedPositions selectedDeviceId rest
  end.

(** The INSERT handler of [tracking_alerts] (l.209-212), after [toAlert]. *)
Definition onAlertInsert {A} (a : A) (prev : list A) : list A :=
  take 50 (a :: prev).


(** The UPDATE handler of [tracking_devices] (l.221-223):
    [prev.map(d => d.id === updatedDevice.id ? updatedDevice : d)]. *)
Definition onDeviceUpdate (updatedDevice : TrackingDevice) (prev : list TrackingDevice)
  : list TrackingDevice :=
  map (fun d => if String.eqb (td_id d) (td_id updatedDevice) then updatedDevice else d) prev.

(** ** The mine layout (mineLayout3D.ts) and [createTunnelPath] (l.236-283) *)

Record Vec3 := mkVec3 { vx : Q; vy : Q; vz : Q }.

(** A [MineNode]; its [type] and [label] are not read by the simulator. *)
Record MineNode := mkMineNode { node_id : string; node_position : Vec3 }.

Definition CENTER_LAT : Q := 22292675 # 1000000.
Definition CENTER_LNG : Q := 73366018 # 1000000.

Definition node (id : string) (x y z : Z) : MineNode :=
  mkMineNode id (mkVec3 (inject_Z x) (inject_Z y) (inject_Z z)).

Definition mineNodes : list MineNode := [
  node "surf_entry" 0 0 0;
  node "shaft_l1" 0 (-50) 0;
  node "shaft_l2" 0 (-150) 0;
  node "shaft_l3" 0 (-250) 0;
  node "shaft_bottom" 0 (-300) 0;
  node "l1_n1" 50 (-50) 20;
  node "l1_n2" 100 (-50) 40;
  node "l1_n3" (-60) (-50) 10;
  node "l1_n4" (-120) (-50) (-30);
  node "l1_loop_1" 40 (-50) (-40);
  node "l1_loop_2" (-20) (-50) (-50);
  node "l2_n1" 20 (-150) 80;
  node "l2_n2" 40 (-150) 150;
  node "l2_n3" (-30) (-150) 60;
  node "l2_n4" (-80) (-150) 90;
  node "l2_cross_1" 100 (-150) 0;
  node "l2_cross_2" 120 (-150) (-100);
  node "l3_n1" (-40) (-250) (-40);
  node "l3_n2" (-100) (-260) (-80);
  node "l3_n3" 60 (-250) (-20);
  node "l3_n4" 150 (-280) (-50);
  node "ramp_s_l1_mid" 80 (-25) 50;
  node "ramp_l1_l2_mid" 150 (-100) 50 ].

Inductive PathType := path1 | path2 | path3.

Definition route (pathType : PathType) : list string :=
  match pathType with
  | path1 => ["surf_entry"; "shaft_l1"; "l1_n1"; "l1_n2"; "l1_n1"; "shaft_l1";
              "shaft_l2"; "l2_n1"; "l2_n2"; "l2_n1"; "l2_cross_1"; "l2_cross_2";
              "l2_cross_1"; "shaft_l2"; "shaft_l3"; "l3_n1"; "l3_n2"; "l3_n1";
              "l3_n3"; "l3_n4"; "l3_n3"; "shaft_l3"; "shaft_l2"; "shaft_l1"; "surf_entry"]
  | path2 => ["surf_entry"; "shaft_l1"; "l1_n3"; "l1_n4"; "l1_n3"; "l1_loop_1";
              "l1_loop_2"; "shaft_l1"; "shaft_l2"; "l2_n3"; "l2_n4"; "l2_n3";
              "shaft_l2"; "shaft_l1"; "surf_entry"]
  | path3 => ["surf_entry"; "shaft_l1"; "shaft_l2"; "shaft_l3"; "l3_n3"; "l3_n4";
              "l3_n3"; "l3_n1"; "l3_n2"; "l3_n1"; "shaft_l3"; "shaft_l2";
              "l2_cross_1"; "l2_cross_2"; "l2_cross_1"; "shaft_l2"; "shaft_l1"; "surf_entry"]
  end.

Record PathPoint := mkPathPoint {
  pp_nodeId : string;
  pp_lat : Q;
  pp_lng : Q;
  pp_depth : Q;
  pp_position : Vec3;
}.

(** The [route.map] callback: [mineLayout.nodes.find], then the GPS
    conversion, or [null] for an unknown node id. *)
Definition toPathPoint (nodeId : string) : option PathPoint :=
  match find (fun n => String.eqb (node_id n) nodeId) mineNodes with
  | None => None
  | Some nd =>
      let p := node_position nd in
      Some (mkPathPoint nodeId (CENTER_LAT - vz p / 111320) (CENTER_LNG + vx p / 103000)
              (- vy p) p)
  end.

(** [.filter(Boolean)] drops the [null]s. *)
Definition createTunnelPath (pathType : PathType) : list PathPoint :=
  omap toPathPoint (route pathType).

(** [index === 0 ? 'path1' : index === 1 ? 'path2' : 'path3'] (l.320). *)
Definition pathTypeOf (index : nat) : PathType :=
  match index with O => path1 | S O => path2 | _ => path3 end.

Definition devicePaths (sel : list TrackingDevice) : list (string * list PathPoint) :=
  imap (fun i d => (td_id d, createTunnelPath (pathTypeOf i))) sel.

(** ** One run of [simulatePosition] (l.336-427) *)

(** The three [Math.random()] draws of one device, in call order. *)
Record SimDraws := mkSimDraws { r_signal : Q; r_speed : Q; r_battery : Q }.

(** A [TrackingPositionInsert] as built at l.395-407 ([raw_data] reduced to
    its [is_underground] flag). *)
Record PositionInsert := mkPositionInsert {
  pi_device_id : string;
  pi_latitude : Q;
  pi_longitude : Q;
  pi_depth : Q;
  pi_altitude : Q;
  pi_speed : Q;
  pi_heading : Q;
  pi_accuracy : Q;
  pi_signal_strength : Z;
  pi_zone : string;
  pi_is_underground : bool;
}.

(** The zone by depth (l.384-389). *)
Definition simZone (depth : Q) : string :=
  if Qlt_bool 200 depth then "Level 3 - Deep Extraction"
  else if Qlt_bool 100 depth then "Level 2 - Production"
  else if Qlt_bool 30 depth then "Level 1 - Logistics"
  else if Qlt_bool 0 depth then "Main Shaft"
  else "Surface".

Section Simulation.

(** [Math.sqrt], and [Math.atan2(dx, dz) * (180 / Math.PI)]. *)
Variable sqrt : Q -> Q.
Variable headingDeg : Q -> Q -> Q.

Local Open Scope Q_scope.

(** The position insert and the [battery_level] of the device update. *)
Definition emitAt (deviceId : string) (lat lng depth heading : Q) (r : SimDraws)
  : PositionInsert * Z :=
  let zone := simZone depth in
  let signalStrength := Qmax 5 (100 - depth / 3 - r_signal r * 5) in
  (mkPositionInsert deviceId lat lng depth (- depth) (8 + r_speed r * 2) heading
     (5 + depth * (5#100)) (js_round signalStrength) zone (Qlt_bool 5 depth),
   Z.max 10 (85 - Qfloor (r_battery r * 5))).

(** The loop body for one device with a tracker and a nonempty path: the
    updated tracker (mutated in place in the code) and what is written. *)
Definition simulateDevice (deviceId : string) (path : list PathPoint) (r : SimDraws)
    (state : SimProgress) : SimProgress * option (PositionInsert * Z) :=
  let len := Z.of_nat (length path) in
  match js_index path (pathIndex state),
        js_index path (Z.rem (pathIndex state + 1) len) with
  | Some currentPoint, Some nextPoint =>
      let dx := vx (pp_position nextPoint) - vx (pp_position currentPoint) in
      let dy := vy (pp_position nextPoint) - vy (pp_position currentPoint) in
      let dz := vz (pp_position nextPoint) - vz (pp_position currentPoint) in
      let distance := sqrt (dx * dx + dy * dy + dz * dz) in
      let heading := headingDeg dx dz in
      let normalizedHeading := if Qlt_bool heading 0 then heading + 360 else heading in
      let moveDistance := (8 / 3600) * 2 in
      let snap :=
        let idx := Z.rem (pathIndex state + 1) len in
        (mkSimProgress idx 0,
         match js_index path idx with
         | None => None
         | Some targetPoint =>
             Some (emitAt deviceId (pp_lat targetPoint) (pp_lng targetPoint)
                     (pp_depth targetPoint) normalizedHeading r)
         end) in
      (* [moveDistance / segmentLength] is [Infinity] on a zero-length segment *)
      if Qeq_bool distance 0 then snap else
      let p := progress state + moveDistance / distance in
      if Qle_bool 1 p then snap
      else (mkSimProgress (pathIndex state) p,
            Some (emitAt deviceId
                    (pp_lat currentPoint + (pp_lat nextPoint - pp_lat currentPoint) * p)
                    (pp_lng currentPoint + (pp_lng nextPoint - pp_lng currentPoint) * p)
                    (pp_depth currentPoint + (pp_depth nextPoint - pp_depth currentPoint) * p)
                    normalizedHeading r))
  | _, _ => (state, None)
  end.

(** [for (const { deviceId, device, path } of devicePaths)], each entry
    with its draws; [simulationStateRef] is threaded through. *)
Fixpoint simulatePosition (dps : list (string * list PathPoint * SimDraws))
    (m : gmap string SimProgress) : gmap string SimProgress * list (PositionInsert * Z) :=
  match dps with
  | [] => (m, [])
  | (deviceId, path, r) :: rest =>
      match m !! deviceId with
      | None => simulatePosition rest m
      | Some state =>
          match path with
          | [] => simulatePosition rest m
          | _ :: _ =>
              let '(state', out) := simulateDevice deviceId path r state in
              let '(m', outs) := simulatePosition rest (<[deviceId := state']> m) in
              (m', match out with Some o => o :: outs | None => outs end)
          end
      end
  end.

End Simulation.

(** ** Lemmas on [useSupabaseTracking] *)

Lemma last_cons_match {A} (x : A) (l : list A) (o : option A) :
  match last (x :: l) with None => o | Some y => Some y end
  = match last l with None => Some x | Some y => Some y end.
Proof. rewrite last_cons. destruct (last l); reflexivity. Qed.

(** ** Properties of [useSupabaseTracking] *)

(** The choice of simulated devices (part_001 l.289-310): at most three
    devices, all taken from the device list, without repetition when the
    list has none, and at least one whenever the list is nonempty; with
    two or more drills among the devices, only drills are simulated. *)
Theorem devicesToSimulate_choice (devices : list TrackingDevice) :
  (length (devicesToSimulate devices) <= 3)%nat
  /\ devicesToSimulate devices ⊆ devices
  /\ (NoDup devices -> NoDup (devicesToSimulate devices))
  /\ (devices <> [] -> devicesToSimulate devices <> [])
  /\ ((2 <= length (filter (fun d => isDrill d = true) devices))%nat ->
      Forall (fun d => isDrill d = true) (devicesToSimulate devices)).
Proof.
  unfold devicesToSimulate.
  set (drills := take 3 (filter (fun d => isDrill d = true) devices)).
  set (others := take 2 (filter (fun d => d ∉ drills) devices)).
  assert (Hds : drills `sublist_of` devices).
  { transitivity (filter (fun d => isDrill d = true) devices);
      [apply sublist_take|apply sublist_filter]. }
  assert (Hos : others `sublist_of` devices).
  { transitivity (filter (fun d => d ∉ drills) devices);
      [apply sublist_take|apply sublist_filter]. }
  assert (Hdo : forall x, x ∈ drills -> x ∉ others).
  { intros x Hx Ho. apply (sublist_subseteq _ _ (sublist_take _ _)) in Ho.
    apply list_elem_of_filter in Ho as [Hn _]. contradiction. }
  destruct (Nat.leb_spec 2 (length drills)) as [H2|H2].
  - split; [unfold drills; rewrite length_take; lia|].
    split; [apply sublist_subseteq, Hds|].
    split; [intros Hnd; exact (sublist_NoDup _ _ Hnd Hds)|].
    split; [intros _ Hnil; rewrite Hnil in H2; simpl in H2; lia|].
    intros _. apply Forall_forall. intros x Hx.
    apply (sublist_subseteq _ _ (sublist_take _ _)) in Hx.
    apply list_elem_of_filter in Hx as [Hx _]. exact Hx.
  - destruct ((length drills =? 1)%nat && (2 <=? length devices)%nat) eqn:H1.
    + apply andb_prop in H1 as [H1 _]. apply Nat.eqb_eq in H1.
      split; [rewrite length_take; lia|].
      split.
      { intros x Hx. apply (sublist_subseteq _ _ (sublist_take _ _)) in Hx.
        apply elem_of_app in Hx as [Hx|Hx];
          [apply (sublist_subseteq _ _ Hds), Hx|apply (sublist_subseteq _ _ Hos), Hx]. }
      split.
      { intros Hnd. eapply sublist_NoDup; [|apply sublist_take].
        apply NoDup_app. split; [exact (sublist_NoDup _ _ Hnd Hds)|].
        split; [exact Hdo|exact (sublist_NoDup _ _ Hnd Hos)]. }
      split.
      { intros _. destruct drills as [|d0 ds]; [discriminate H1|]. simpl. discriminate. }
      intros Hge. exfalso.
      assert (Hl : length drills = Nat.min 3 (length (filter (fun d => isDrill d = true) devices)))
        by (unfold drills; apply length_take).
      lia.
    + split; [rewrite length_take; lia|].
      split; [apply sublist_subseteq, sublist_take|].
      split; [intros Hnd; exact (sublist_NoDup _ _ Hnd (sublist_take _ _))|].
      split.
      { intros Hne. destruct devices as [|d0 ds]; [contradiction|].
        simpl. destruct (length ds); simpl; discriminate. }
      intros Hge. exfalso.
      assert (Hl : length drills = Nat.min 3 (length (filter (fun d => isDrill d = true) devices)))
        by (unfold drills; apply length_take).
      lia.
Qed.

(** The realtime position handler (part_001 l.176-200), over any stream of
    inserts: each device's history is its own positions appended with the
    200-entry window, and its latest position is its last one; devices
    with no insert keep their entries. [currentPosition] and
    [trackHistory] follow the positions of the selected device, or, with
    no (or an empty) selected id, the positions of every device
    interleaved. *)
Theorem realtime_positions_per_device {P} (selectedDeviceId : option string)
    (evs : list (string * P)) (v : RealtimeView P) (d : string) :
  let v' := onPositionInserts selectedDeviceId evs v in
  allDeviceTrackHistory v' !! d
    = match positionsOf d evs with
      | [] => allDeviceTrackHistory v !! d
      | ps => Some (foldl sliceAppend (default [] (allDeviceTrackHistory v !! d)) ps)
      end
  /\ allDevicePositions v' !! d
     = match last (positionsOf d evs) with
       | None => allDevicePositions v !! d
       | Some p => Some p
       end
  /\ rt_trackHistory v'
     = foldl sliceAppend (rt_trackHistory v) (followedPositions selectedDeviceId evs)
  /\ rt_currentPosition v'
     = match last (followedPositions selectedDeviceId evs) with
       | None => rt_currentPosition v
       | Some p => Some p
       end.
Proof.
  cbv zeta. unfold onPositionInserts. revert v.
  induction evs as [|[d' p] evs IH]; intros v; [repeat split|].
  simpl. destruct (IH (onPositionInsert selectedDeviceId d' p v)) as (H1 & H2 & H3 & H4).
  simpl in H1, H2, H3, H4. rewrite H1, H2, H3, H4. clear H1 H2 H3 H4.
  split; [|split; [|split]].
  - destruct (String.eqb_spec d' d) as [->|Hne].
    + rewrite lookup_insert_eq. destruct (positionsOf d evs); reflexivity.
    + rewrite lookup_insert_ne by congruence. reflexivity.
  - destruct (String.eqb_spec d' d) as [->|Hne].
    + rewrite lookup_insert_eq, last_cons_match. reflexivity.
    + rewrite lookup_insert_ne by congruence. reflexivity.
  - destruct (follows selectedDeviceId d'); reflexivity.
  - destruct (follows selectedDeviceId d'); [|reflexivity].
    rewrite last_cons_match. reflexivity.
Qed.

Lemma take_app_take {A} (l1 l2 : list A) (n m : nat) :
  (n <= length l1 + m)%nat -> take n (l1 ++ take m l2) = take n (l1 ++ l2).
Proof.
  revert n. induction l1 as [|x l1 IH]; intros n Hn; simpl in *.
  - rewrite take_take. f_equal. lia.
  - destruct n as [|n]; [reflexivity|]. simpl. f_equal. apply IH. lia.
Qed.

(** The realtime alert handler (part_001 l.209-212): from a list of at
    most 50 alerts, after any stream of inserts the list holds the newest
    50 of the inserted alerts and previous alerts together, newest first. *)
Theorem realtime_alerts_newest_50 {A} (evs prev : list A) :
  (length prev <= 50)%nat ->
  foldl (fun acc a => onAlertInsert a acc) prev evs = take 50 (rev evs ++ prev)
  /\ length (foldl (fun acc a => onAlertInsert a acc) prev evs)
     = Nat.min 50 (length evs + length prev).
Proof.
  intros Hp.
  assert (Hf : foldl (fun acc a => onAlertInsert a acc) prev evs = take 50 (rev evs ++ prev)).
  { revert prev Hp. induction evs as [|a evs IH]; intros prev Hp; simpl.
    - rewrite take_ge by lia. reflexivity.
    - rewrite IH by (unfold onAlertInsert; rewrite length_take; lia).
      unfold onAlertInsert. rewrite take_app_take by lia.
      rewrite <- app_assoc. reflexivity. }
  split; [exact Hf|]. rewrite Hf, length_take, length_app, length_rev. lia.
Qed.

Lemma realtime_alerts_newest_50_witness :
  (length [3%Z; 2%Z; 1%Z] <= 50)%nat
  /\ foldl (fun acc a => onAlertInsert a acc) [3%Z; 2%Z; 1%Z] (seqZ 4 60)
     = take 50 (rev (seqZ 4 60) ++ [3%Z; 2%Z; 1%Z])
  /\ length (foldl (fun acc a => onAlertInsert a acc) [3%Z; 2%Z; 1%Z] (seqZ 4 60))
     = Nat.min 50 (length (seqZ 4 60) + length [3%Z; 2%Z; 1%Z]).
Proof.
  assert (Hp : (length [3%Z; 2%Z; 1%Z] <= 50)%nat) by (simpl; lia).
  split; [exact Hp|]. exact (realtime_alerts_newest_50 (seqZ 4 60) [3%Z; 2%Z; 1%Z] Hp).
Defined.


(** The device UPDATE handler (part_001 l.221-223) replaces the rows with
    the updated id and keeps every other row; it never adds or removes a
    row, so an update for a device not in the list is dropped. *)
Theorem device_update_replaces (upd : TrackingDevice) (prev : list TrackingDevice) :
  map td_id (onDeviceUpdate upd prev) = map td_id prev
  /\ (forall d, d ∈ onDeviceUpdate upd prev ->
      d = upd \/ (d ∈ prev /\ td_id d <> td_id upd))
  /\ (td_id upd ∉ map td_id prev -> onDeviceUpdate upd prev = prev).
Proof.
  unfold onDeviceUpdate. split; [|split].
  - rewrite map_map. apply map_ext. intros d.
    destruct (String.eqb_spec (td_id d) (td_id upd)); congruence.
  - intros d Hd. apply list_elem_of_In, in_map_iff in Hd as (d0 & Hd0 & Hin).
    destruct (String.eqb_spec (td_id d0) (td_id upd)) as [He|Hne]; [left; congruence|].
    right. subst d0. split; [apply list_elem_of_In, Hin|exact Hne].
  - intros Hn. induction prev as [|d prev IH]; [reflexivity|]. simpl.
    simpl in Hn. rewrite not_elem_of_cons in Hn. destruct Hn as [Hd Hn].
    destruct (String.eqb_spec (td_id d) (td_id upd)) as [He|_]; [congruence|].
    f_equal. apply IH, Hn.
Qed.

Lemma depths_of_check (l : list PathPoint) (D : Q) :
  forallb (fun p => Qle_bool 0 (pp_depth p) && Qle_bool (pp_depth p) D) l = true ->
  Forall (fun p => 0 <= pp_depth p <= D)%Q l.
Proof.
  intros H. apply Forall_forall. intros p Hp.
  apply list_elem_of_In in Hp. rewrite forallb_forall in H.
  apply H, andb_prop in Hp as [H1 H2]. apply Qle_bool_iff in H1, H2. split; assumption.
Qed.

(** createTunnelPath (part_001 l.236-283): for every path type each node
    of the route exists in the mine layout, so no point is dropped; every
    point has a depth between 0 and 280 m; and the path starts and ends
    at the same point, the surface entry. *)
Theorem createTunnelPath_shape (pathType : PathType) :
  length (createTunnelPath pathType) = length (route pathType)
  /\ Forall (fun p => 0 <= pp_depth p <= 280)%Q (createTunnelPath pathType)
  /\ head (createTunnelPath pathType) = last (createTunnelPath pathType)
  /\ option_map pp_nodeId (head (createTunnelPath pathType)) = Some "surf_entry".
Proof.
  split; [|split; [|split]].
  - destruct pathType; vm_compute; reflexivity.
  - apply depths_of_check. destruct pathType; vm_compute; reflexivity.
  - destruct pathType; vm_compute; reflexivity.
  - destruct pathType; vm_compute; reflexivity.
Qed.

(** A tracker that points into its path: [0 <= pathIndex < path.length]
    and [0 <= progress < 1]. *)
Definition trackerOk (path : list PathPoint) (p : SimProgress) : Prop :=
  0 <= pathIndex p < Z.of_nat (length path) /\ (0 <= progress p < 1)%Q.

Definition drawsOk (r : SimDraws) : Prop :=
  (0 <= r_signal r < 1 /\ 0 <= r_speed r < 1 /\ 0 <= r_battery r < 1)%Q.

Definition depthsWithin (D : Q) (path : list PathPoint) : Prop :=
  Forall (fun p => 0 <= pp_depth p <= D)%Q path.

(** The ranges of a simulated insert and of the battery level written
    with it, for path depths within [0, D]. *)
Definition insertOk (D : Q) (ins : PositionInsert) (battery : Z) : Prop :=
  (0 <= pi_depth ins <= D)%Q
  /\ 5 <= pi_signal_strength ins <= 100
  /\ (8 <= pi_speed ins < 10)%Q
  /\ (5 <= pi_accuracy ins <= 5 + D * (5#100))%Q
  /\ (pi_zone ins = "Surface" <-> (pi_depth ins == 0)%Q)
  /\ 81 <= battery <= 85.

Lemma js_index_elem {A} (l : list A) (i : Z) (x : A) :
  js_index l i = Some x -> x ∈ l.
Proof.
  unfold js_index. destruct (i <? 0); [discriminate|]. apply list_elem_of_lookup_2.
Qed.

Lemma interp_between (c n p D : Q) :
  (0 <= c <= D)%Q -> (0 <= n <= D)%Q -> (0 <= p <= 1)%Q ->
  (0 <= c + (n - c) * p <= D)%Q.
Proof.
  intros [Hc0 HcD] [Hn0 HnD] [Hp0 Hp1].
  assert (E : (c + (n - c) * p == c * (1 - p) + n * p)%Q) by ring.
  rewrite E.
  assert (H1 : (0 <= c * (1 - p))%Q) by (apply Qmult_le_0_compat; lra).
  assert (H2 : (0 <= n * p)%Q) by (apply Qmult_le_0_compat; lra).
  assert (H3 : (c * (1 - p) <= D * (1 - p))%Q) by (apply Qmult_le_compat_r; lra).
  assert (H4 : (n * p <= D * p)%Q) by (apply Qmult_le_compat_r; lra).
  split; [lra|].
  assert (E2 : (D * (1 - p) + D * p == D)%Q) by ring. lra.
Qed.

Lemma Qle_bool_false (x y : Q) : Qle_bool x y = false -> (y < x)%Q.
Proof.
  intros H. apply Qnot_le_lt. intros Hle. apply Qle_bool_iff in Hle. congruence.
Qed.

Lemma simZone_surface (depth : Q) :
  (0 <= depth)%Q -> (simZone depth = "Surface" <-> (depth == 0)%Q).
Proof.
  intros H0. unfold simZone, Qlt_bool.
  destruct (Qle_bool depth 200) eqn:H200; simpl;
    [|apply Qle_bool_false in H200; split; [discriminate|intros He; lra]].
  destruct (Qle_bool depth 100) eqn:H100; simpl;
    [|apply Qle_bool_false in H100; split; [discriminate|intros He; lra]].
  destruct (Qle_bool depth 30) eqn:H30; simpl;
    [|apply Qle_bool_false in H30; split; [discriminate|intros He; lra]].
  destruct (Qle_bool depth 0) eqn:Hz; simpl.
  - apply Qle_bool_iff in Hz. split; [intros _; lra|reflexivity].
  - apply Qle_bool_false in Hz. split; [discriminate|intros He; lra].
Qed.

Lemma emitAt_ok (id : string) (lat lng depth heading D : Q) (r : SimDraws) :
  (0 <= depth <= D)%Q -> drawsOk r ->
  insertOk D (emitAt id lat lng depth heading r).1 (emitAt id lat lng depth heading r).2
  /\ pi_device_id (emitAt id lat lng depth heading r).1 = id.
Proof.
  intros [Hd0 HdD] (Hs & Hv & Hb). unfold emitAt, insertOk. cbv zeta.
  cbn [fst snd pi_depth pi_signal_strength pi_speed pi_accuracy pi_zone pi_device_id].
  split; [|reflexivity].
  split; [split; assumption|]. split; [|split; [|split; [|split]]].
  - assert (H3 : (0 <= depth / 3)%Q) by (apply Qle_shift_div_l; lra).
    split.
    + apply js_round_ge. unfold inject_Z. apply Q.le_max_l.
    + apply js_round_le. unfold inject_Z. apply Q.max_lub; lra.
  - lra.
  - lra.
  - apply simZone_surface. exact Hd0.
  - assert (Hf1 : (inject_Z (Qfloor (r_battery r * 5)) <= r_battery r * 5)%Q)
      by apply Qfloor_le.
    assert (Hf2 : (r_battery r * 5 < inject_Z (Qfloor (r_battery r * 5) + 1))%Q)
      by apply Qlt_floor.
    rewrite inject_Z_plus in Hf2. change (inject_Z 1) with 1%Q in Hf2.
    assert (Hlo : (inject_Z (-1) < inject_Z (Qfloor (r_battery r * 5)))%Q)
      by (unfold inject_Z at 1; lra).
    assert (Hhi : (inject_Z (Qfloor (r_battery r * 5)) < inject_Z 5)%Q)
      by (unfold inject_Z at 2; lra).
    rewrite <- Zlt_Qlt in Hlo, Hhi. lia.
Qed.

Lemma simulateDevice_ok (sqrt : Q -> Q) (hd : Q -> Q -> Q) (id : string)
    (path : list PathPoint) (r : SimDraws) (st : SimProgress) :
  (forall x, 0 <= sqrt x)%Q -> trackerOk path st ->
  trackerOk path (simulateDevice sqrt hd id path r st).1
  /\ exists o, (simulateDevice sqrt hd id path r st).2 = Some o
       /\ pi_device_id o.1 = id
       /\ (forall D, depthsWithin D path -> drawsOk r -> insertOk D o.1 o.2).
Proof.
  intros Hsq [Hi [Hp0 Hp1]]. unfold simulateDevice.
  destruct (js_index_in_range path (pathIndex st) Hi) as [cur Hcur]. rewrite Hcur.
  assert (Hr : 0 <= Z.rem (pathIndex st + 1) (Z.of_nat (length path))
               < Z.of_nat (length path)) by (apply Z.rem_bound_pos; lia).
  destruct (js_index_in_range path _ Hr) as [nxt Hnxt]. rewrite Hnxt. cbv zeta.
  (* reaching the next node: the tracker moves on, the node is written *)
  assert (Hsnap : forall h,
    trackerOk path (mkSimProgress (Z.rem (pathIndex st + 1) (Z.of_nat (length path))) 0)
    /\ exists o, Some (emitAt id (pp_lat nxt) (pp_lng nxt) (pp_depth nxt) h r) = Some o
         /\ pi_device_id o.1 = id
         /\ (forall D, depthsWithin D path -> drawsOk r -> insertOk D o.1 o.2)).
  { intros h. split; [split; [exact Hr|simpl; lra]|].
    eexists; split; [reflexivity|].
    split; [reflexivity|].
    intros D HD Hdr. apply emitAt_ok; [|exact Hdr].
      unfold depthsWithin in HD. rewrite Forall_forall in HD.
      apply HD. eapply js_index_elem; exact Hnxt. }
  destruct (Qeq_bool _ 0) eqn:Hz.
  - apply Hsnap.
  - set (d := sqrt _) in *.
    assert (Hd : (0 < d)%Q).
    { assert (Hd0 : (0 <= d)%Q) by apply Hsq.
      destruct (Qlt_le_dec 0 d) as [Hlt|Hle]; [exact Hlt|].
      assert (Heq : (d == 0)%Q) by lra. apply Qeq_bool_iff in Heq. congruence. }
    assert (Hc0 : (0 <= 8 / 3600 * 2)%Q) by (vm_compute; intros Hc; discriminate Hc).
    assert (Hm : (0 <= 8 / 3600 * 2 / d)%Q) by (apply Qle_shift_div_l; lra).
    destruct (Qle_bool 1 _) eqn:H1.
    + apply Hsnap.
    + assert (Hlt : (progress st + 8 / 3600 * 2 / d < 1)%Q).
      { apply Qnot_le_lt. intros Hle. apply Qle_bool_iff in Hle. congruence. }
      simpl. split; [split; [exact Hi|simpl; lra]|].
      eexists; split; [reflexivity|]. split; [reflexivity|].
      intros D HD Hdr. apply emitAt_ok; [|exact Hdr].
      unfold depthsWithin in HD. rewrite Forall_forall in HD.
      apply interp_between; [apply HD; eapply js_index_elem; exact Hcur
                            |apply HD; eapply js_index_elem; exact Hnxt|lra].
Qed.

Lemma key_in (e : string * list PathPoint * SimDraws) (dps : list (string * list PathPoint * SimDraws)) :
  e ∈ dps -> e.1.1 ∈ map (fun e => e.1.1) dps.
Proof.
  intros He. apply list_elem_of_In. apply (in_map (fun e => e.1.1)). apply list_elem_of_In, He.
Qed.

Lemma filter_ext_in {A} (P1 P2 : A -> Prop) `{forall x, Decision (P1 x)}
    `{forall x, Decision (P2 x)} (l : list A) :
  (forall x, x ∈ l -> (P1 x <-> P2 x)) -> filter P1 l = filter P2 l.
Proof.
  induction l as [|x l IH]; intros Hx; [reflexivity|].
  assert (IH' : filter P1 l = filter P2 l) by (apply IH; intros y Hy; apply Hx; set_solver).
  destruct (decide (P1 x)) as [H1|H1].
  - rewrite !filter_cons_True; [f_equal; exact IH'| |exact H1].
    apply (Hx x); [set_solver|exact H1].
  - rewrite !filter_cons_False; [exact IH'| |exact H1].
    intros H2. apply H1, (Hx x); [set_solver|exact H2].
Qed.

Lemma simulatePosition_inv (sqrt : Q -> Q) (hd : Q -> Q -> Q)
    (R : PositionInsert * Z -> Prop) (dps : list (string * list PathPoint * SimDraws))
    (m : gmap string SimProgress) :
  (forall x, 0 <= sqrt x)%Q ->
  NoDup (map (fun e => e.1.1) dps) ->
  (forall e p, e ∈ dps -> m !! e.1.1 = Some p -> trackerOk e.1.2 p) ->
  (forall e p o, e ∈ dps -> trackerOk e.1.2 p ->
     (simulateDevice sqrt hd e.1.1 e.1.2 e.2 p).2 = Some o -> R o) ->
  (forall e p, e ∈ dps -> (simulatePosition sqrt hd dps m).1 !! e.1.1 = Some p ->
     trackerOk e.1.2 p)
  /\ (forall id, id ∉ map (fun e => e.1.1) dps ->
        (simulatePosition sqrt hd dps m).1 !! id = m !! id)
  /\ (forall id, is_Some ((simulatePosition sqrt hd dps m).1 !! id) <-> is_Some (m !! id))
  /\ map (fun o => pi_device_id o.1) (simulatePosition sqrt hd dps m).2
     = filter (fun id => is_Some (m !! id)) (map (fun e => e.1.1) dps)
  /\ Forall R (simulatePosition sqrt hd dps m).2.
Proof.
  intros Hsq. revert m.
  induction dps as [|[[id path] r] dps IH]; intros m Hnd Hok HR.
  - simpl. split; [intros e p He; inversion He|].
    split; [reflexivity|]. split; [reflexivity|]. split; [reflexivity|constructor].
  - simpl in Hnd. apply NoDup_cons in Hnd as [Hnin Hnd].
    assert (Hok' : forall e p, e ∈ dps -> m !! e.1.1 = Some p -> trackerOk e.1.2 p)
      by (intros e p He; apply Hok; set_solver).
    assert (HR' : forall e p o, e ∈ dps -> trackerOk e.1.2 p ->
              (simulateDevice sqrt hd e.1.1 e.1.2 e.2 p).2 = Some o -> R o)
      by (intros e p o He; apply HR; set_solver).
    assert (Hne : forall e, e ∈ dps -> e.1.1 <> id).
    { intros e He Heq. apply Hnin. rewrite <- Heq. apply key_in, He. }
    simpl. destruct (m !! id) as [st|] eqn:Hm.
    + destruct path as [|x l].
      { exfalso. destruct (Hok ((id, []), r) st) as [Hi _]; [set_solver|exact Hm|].
        simpl in Hi. lia. }
      assert (Hst : trackerOk (x :: l) st) by (apply (Hok ((id, x :: l), r)); [set_solver|exact Hm]).
      destruct (simulateDevice_ok sqrt hd id (x :: l) r st Hsq Hst) as [Hst' [o [Ho [Hid _]]]].
      assert (HRo : R o) by (apply (HR ((id, x :: l), r) st o); [set_solver|exact Hst|exact Ho]).
      destruct (simulateDevice sqrt hd id (x :: l) r st) as [st' out] eqn:Hs.
      simpl in Hst', Ho. subst out.
      destruct (IH (<[id := st']> m) Hnd) as (I1 & I2 & I3 & I4 & I5).
      { intros e p He Hp. apply Hok'; [exact He|].
        rewrite lookup_insert_ne in Hp; [exact Hp|]. apply not_eq_sym, Hne, He. }
      { exact HR'. }
      destruct (simulatePosition sqrt hd dps (<[id := st']> m)) as [m' outs] eqn:Hr.
      simpl in *.
      split; [|split; [|split; [|split]]].
      * intros e p He Hp. apply elem_of_cons in He as [->|He].
        -- simpl in Hp. rewrite I2 in Hp by exact Hnin.
           rewrite lookup_insert_eq in Hp. injection Hp as <-. exact Hst'.
        -- exact (I1 e p He Hp).
      * intros id' Hid'. rewrite not_elem_of_cons in Hid'. destruct Hid' as [Hne' Hn'].
        rewrite I2 by exact Hn'. apply lookup_insert_ne. congruence.
      * intros id'. rewrite I3. destruct (decide (id' = id)) as [->|Hne'].
        -- rewrite lookup_insert_eq, Hm. split; intros _; eexists; reflexivity.
        -- rewrite lookup_insert_ne by congruence. reflexivity.
      * rewrite filter_cons_True by (rewrite Hm; eexists; reflexivity).
        rewrite Hid. f_equal. rewrite I4. apply filter_ext_in.
        intros id' Hid'. rewrite lookup_insert_ne; [reflexivity|].
        intros ->. contradiction.
      * constructor; [exact HRo|exact I5].
    + destruct (IH m Hnd Hok' HR') as (I1 & I2 & I3 & I4 & I5).
      split; [|split; [|split; [|split]]].
      * intros e p He Hp. apply elem_of_cons in He as [->|He].
        -- simpl in Hp. rewrite I2 in Hp by exact Hnin. congruence.
        -- exact (I1 e p He Hp).
      * intros id' Hid'. rewrite not_elem_of_cons in Hid'. destruct Hid' as [_ Hn'].
        apply I2, Hn'.
      * exact I3.
      * rewrite filter_cons_False by (rewrite Hm; intros [? Hc]; discriminate Hc).
        exact I4.
      * exact I5.
Qed.

(** One run of simulatePosition (part_001 l.336-427) with [Math.sqrt]
    never negative and one entry per device id: every tracker that pointed
    into its device's path still does afterwards ([0 <= pathIndex <
    path.length], [0 <= progress < 1]), no tracker is created or removed,
    and exactly one position is written per device with a tracker, in
    loop order. *)
Theorem simulation_tick_keeps_trackers (sqrt : Q -> Q) (hd : Q -> Q -> Q)
    (dps : list (string * list PathPoint * SimDraws)) (m : gmap string SimProgress) :
  (forall x, 0 <= sqrt x)%Q ->
  NoDup (map (fun e => e.1.1) dps) ->
  (forall e p, e ∈ dps -> m !! e.1.1 = Some p -> trackerOk e.1.2 p) ->
  (forall e p, e ∈ dps -> (simulatePosition sqrt hd dps m).1 !! e.1.1 = Some p ->
     trackerOk e.1.2 p)
  /\ (forall id, is_Some ((simulatePosition sqrt hd dps m).1 !! id) <-> is_Some (m !! id))
  /\ map (fun o => pi_device_id o.1) (simulatePosition sqrt hd dps m).2
     = filter (fun id => is_Some (m !! id)) (map (fun e => e.1.1) dps).
Proof.
  intros Hsq Hnd Hok.
  destruct (simulatePosition_inv sqrt hd (fun _ => True) dps m Hsq Hnd Hok)
    as (I1 & _ & I3 & I4 & _); [intros; exact I|].
  split; [exact I1|]. split; [exact I3|exact I4].
Qed.

(** Every position one run of simulatePosition writes, for paths whose
    depths lie in [0, D] (createTunnelPath gives D = 280), trackers in
    range and [Math.random()] in [0, 1): depth in [0, D], signal strength
    in [5, 100], speed in [8, 10) km/h, accuracy in [5, 5 + D/20], zone
    "Surface" exactly at depth 0, and a battery level in [81, 85]. *)
Theorem simulation_tick_inserts_in_range (sqrt : Q -> Q) (hd : Q -> Q -> Q) (D : Q)
    (dps : list (string * list PathPoint * SimDraws)) (m : gmap string SimProgress) :
  (forall x, 0 <= sqrt x)%Q ->
  NoDup (map (fun e => e.1.1) dps) ->
  Forall (fun e => depthsWithin D e.1.2 /\ drawsOk e.2) dps ->
  (forall e p, e ∈ dps -> m !! e.1.1 = Some p -> trackerOk e.1.2 p) ->
  Forall (fun o => insertOk D o.1 o.2) (simulatePosition sqrt hd dps m).2.
Proof.
  intros Hsq Hnd Hall Hok.
  destruct (simulatePosition_inv sqrt hd (fun o => insertOk D o.1 o.2) dps m Hsq Hnd Hok)
    as (_ & _ & _ & _ & I5); [|exact I5].
  intros e p o He Hp Ho.
  destruct (simulateDevice_ok sqrt hd e.1.1 e.1.2 e.2 p Hsq Hp) as [_ [o' [Ho' [_ HD]]]].
  rewrite Ho' in Ho. injection Ho as <-.
  rewrite Forall_forall in Hall. destruct (Hall e He) as [Hd Hr].
  exact (HD D Hd Hr).
Qed.

Definition halfDraws : SimDraws := mkSimDraws (1#2) (1#2) (1#2).

Definition twoDrills : list (string * list PathPoint * SimDraws) :=
  [("d1", createTunnelPath path1, halfDraws); ("d2", createTunnelPath path2, halfDraws)].

Definition twoTrackers : gmap string SimProgress :=
  <["d1" := mkSimProgress 3 (1#2)]> (<["d2" := mkSimProgress 14 0]> ∅).

Lemma twoTrackers_ok :
  forall e p, e ∈ twoDrills -> twoTrackers !! e.1.1 = Some p -> trackerOk e.1.2 p.
Proof.
  intros e p He Hp. unfold twoDrills in He.
  repeat (apply elem_of_cons in He as [He|He]; [subst e; vm_compute in Hp;
    injection Hp as <-; split; [split; [cbn; lia|vm_compute; reflexivity]|simpl; lra]|]).
  inversion He.
Qed.

Lemma simulation_tick_keeps_trackers_witness :
  (forall x, 0 <= Qabs x)%Q
  /\ NoDup (map (fun e => e.1.1) twoDrills)
  /\ (forall e p, e ∈ twoDrills -> twoTrackers !! e.1.1 = Some p -> trackerOk e.1.2 p)
  /\ ((forall e p, e ∈ twoDrills ->
        (simulatePosition Qabs (fun _ _ => 0%Q) twoDrills twoTrackers).1 !! e.1.1 = Some p ->
        trackerOk e.1.2 p)
      /\ (forall id, is_Some ((simulatePosition Qabs (fun _ _ => 0%Q) twoDrills twoTrackers).1 !! id)
                     <-> is_Some (twoTrackers !! id))
      /\ map (fun o => pi_device_id o.1) (simulatePosition Qabs (fun _ _ => 0%Q) twoDrills twoTrackers).2
         = filter (fun id => is_Some (twoTrackers !! id)) (map (fun e => e.1.1) twoDrills)).
Proof.
  assert (Hsq : forall x, (0 <= Qabs x)%Q) by apply Qabs_nonneg.
  assert (Hnd : NoDup (map (fun e => e.1.1) twoDrills)) by (simpl; repeat constructor; set_solver).
  split; [exact Hsq|]. split; [exact Hnd|]. split; [exact twoTrackers_ok|].
  exact (simulation_tick_keeps_trackers Qabs (fun _ _ => 0%Q) twoDrills twoTrackers
           Hsq Hnd twoTrackers_ok).
Defined.

Lemma simulation_tick_inserts_in_range_witness :
  (forall x, 0 <= Qabs x)%Q
  /\ NoDup (map (fun e => e.1.1) twoDrills)
  /\ Forall (fun e => depthsWithin 280 e.1.2 /\ drawsOk e.2) twoDrills
  /\ (forall e p, e ∈ twoDrills -> twoTrackers !! e.1.1 = Some p -> trackerOk e.1.2 p)
  /\ Forall (fun o => insertOk 280 o.1 o.2)
       (simulatePosition Qabs (fun _ _ => 0%Q) twoDrills twoTrackers).2.
Proof.
  assert (Hsq : forall x, (0 <= Qabs x)%Q) by apply Qabs_nonneg.
  assert (Hnd : NoDup (map (fun e => e.1.1) twoDrills)) by (simpl; repeat constructor; set_solver).
  assert (Hr : drawsOk halfDraws) by (unfold drawsOk; simpl; lra).
  assert (Hall : Forall (fun e => depthsWithin 280 e.1.2 /\ drawsOk e.2) twoDrills).
  { unfold twoDrills. apply Forall_cons_2; [split; [apply depths_of_check|exact Hr]|].
    { vm_compute; reflexivity. }
    apply Forall_cons_2; [split; [apply depths_of_check|exact Hr]|apply Forall_nil_2].
    vm_compute; reflexivity. }
  split; [exact Hsq|]. split; [exact Hnd|]. split; [exact Hall|].
  split; [exact twoTrackers_ok|].
  exact (simulation_tick_inserts_in_range Qabs (fun _ _ => 0%Q) 280 twoDrills twoTrackers
           Hsq Hnd Hall twoTrackers_ok).
Defined.

(** A tracker on a point at the origin whose next point (after the wrap
    to index 0) is the same point: the segment has length [Math.sqrt(0)],
    and the tracker snaps to index 0. *)
Lemma simulateDevice_wrap_zero (sqrt : Q -> Q) (hd : Q -> Q -> Q) (id : string)
    (path : list PathPoint) (r : SimDraws) (st : SimProgress) (c : PathPoint) :
  sqrt 0%Q = 0%Q ->
  js_index path (pathIndex st) = Some c ->
  Z.rem (pathIndex st + 1) (Z.of_nat (length path)) = 0 ->
  js_index path 0 = Some c ->
  pp_position c = mkVec3 0 0 0 ->
  exists h, simulateDevice sqrt hd id path r st
    = (mkSimProgress 0 0, Some (emitAt id (pp_lat c) (pp_lng c) (pp_depth c) h r)).
Proof.
  intros Hs H1 H2 H3 Hp. unfold simulateDevice. rewrite H1, H2, H3. cbv zeta.
  rewrite Hp. cbn [vx vy vz].
  assert (E : ((0 - 0) * (0 - 0) + (0 - 0) * (0 - 0) + (0 - 0) * (0 - 0))%Q = 0%Q)
    by reflexivity.
  rewrite E, Hs. eexists. reflexivity.
Qed.

(** The three tunnel paths begin and end at the surface entry, at the
    origin of the layout and at depth 0. *)
Lemma tunnel_surface_ends (pathType : PathType) :
  exists c,
    js_index (createTunnelPath pathType) (Z.of_nat (length (createTunnelPath pathType)) - 1) = Some c
    /\ Z.rem (Z.of_nat (length (createTunnelPath pathType)) - 1 + 1)
             (Z.of_nat (length (createTunnelPath pathType))) = 0
    /\ js_index (createTunnelPath pathType) 0 = Some c
    /\ pp_position c = mkVec3 0 0 0
    /\ pp_depth c = 0%Q.
Proof.
  exists (mkPathPoint "surf_entry" (CENTER_LAT - inject_Z 0 / 111320)
            (CENTER_LNG + inject_Z 0 / 103000) (- inject_Z 0)
            (mkVec3 (inject_Z 0) (inject_Z 0) (inject_Z 0))).
  destruct pathType; (split; [vm_compute; reflexivity|]);
    (split; [vm_compute; reflexivity|]); (split; [vm_compute; reflexivity|]);
    split; reflexivity.
Qed.

(** The routes of createTunnelPath end where they start (the surface
    entry), so the segment from the last point back to the first has
    length 0 and [moveDistance / 0] is [Infinity]: a tracker on the last
    point, whatever its progress, is moved to the first point in a single
    run of simulatePosition, which writes the surface entry (depth 0, zone
    "Surface", not underground). *)
Theorem tunnel_wraparound_is_instant (sqrt : Q -> Q) (hd : Q -> Q -> Q)
    (pathType : PathType) (id : string) (r : SimDraws) (p : SimProgress) :
  sqrt 0%Q = 0%Q ->
  pathIndex p = Z.of_nat (length (createTunnelPath pathType)) - 1 ->
  (simulateDevice sqrt hd id (createTunnelPath pathType) r p).1 = mkSimProgress 0 0
  /\ exists ins battery,
       (simulateDevice sqrt hd id (createTunnelPath pathType) r p).2 = Some (ins, battery)
       /\ (pi_depth ins == 0)%Q /\ pi_zone ins = "Surface"
       /\ pi_is_underground ins = false.
Proof.
  intros Hs Hi.
  destruct (tunnel_surface_ends pathType) as (c & E1 & E2 & E3 & E4 & E5).
  rewrite <- Hi in E1, E2.
  destruct (simulateDevice_wrap_zero sqrt hd id (createTunnelPath pathType) r p c Hs E1 E2 E3 E4)
    as [h Hh].
  rewrite Hh. split; [reflexivity|]. eexists _, _. split; [reflexivity|].
  unfold emitAt; cbn [fst pi_depth pi_zone pi_is_underground]. rewrite E5.
  split; [reflexivity|]. split; reflexivity.
Qed.

Lemma tunnel_wraparound_is_instant_witness :
  Qabs 0 = 0%Q
  /\ pathIndex (mkSimProgress 17 (1#3)) = Z.of_nat (length (createTunnelPath path3)) - 1
  /\ ((simulateDevice Qabs (fun _ _ => 0%Q) "d3" (createTunnelPath path3) halfDraws
         (mkSimProgress 17 (1#3))).1 = mkSimProgress 0 0
      /\ exists ins battery,
           (simulateDevice Qabs (fun _ _ => 0%Q) "d3" (createTunnelPath path3) halfDraws
              (mkSimProgress 17 (1#3))).2 = Some (ins, battery)
           /\ (pi_depth ins == 0)%Q /\ pi_zone ins = "Surface"
           /\ pi_is_underground ins = false).
Proof.
  assert (Hs : Qabs 0 = 0%Q) by reflexivity.
  assert (Hi : pathIndex (mkSimProgress 17 (1#3))
               = Z.of_nat (length (createTunnelPath path3)) - 1) by (vm_compute; reflexivity).
  split; [exact Hs|]. split; [exact Hi|].
  exact (tunnel_wraparound_is_instant Qabs (fun _ _ => 0%Q) path3 "d3" halfDraws
           (mkSimProgress 17 (1#3)) Hs Hi).
Defined.


